(** * mcshader-lsp: the language-server bootstrap and the client Config

  A shallow embedding of [server/src/server.ts] (the request and
  notification handlers registered on the connection) and of the [Config]
  class that accompanies it (constructor and [onChange]), with the
  properties the specification states about them. *)

From Stdlib Require Import Ascii String.
From stdpp Require Import gmap strings list.

Local Open Scope string_scope.

(** ** JavaScript values the handlers compute with *)

Module Js.

(** A number as far as array indexing is concerned: [NaN] or an integer.
    The ids attached to completion items are integers; an integer-valued
    double below 2^53 subtracts exactly, and beyond that range no index
    can fall inside an array. *)
Inductive num : Type :=
| NaN
| Int (z : Z).

(** The [data] field of a completion item, for the requests this
    development covers: the field is absent ([undefined]) or carries an
    integer id, as the completion list hands them out.  The field is typed
    [any]; other JSON values (a string, a boolean, an array, a fraction)
    would go through [ToNumber] before the subtraction and are not part of
    this type, so every statement here is about integer ids and absent
    data only. *)
Inductive data : Type :=
| DUndefined
| DInt (z : Z).

(** [ToNumber]: [undefined] converts to [NaN]. *)
Definition to_number (d : data) : num :=
  match d with
  | DUndefined => NaN
  | DInt z => Int z
  end.

(** [a - b] on numbers; [NaN] is absorbing. *)
Definition sub (a : num) (b : Z) : num :=
  match a with
  | NaN => NaN
  | Int z => Int (z - b)
  end.

(** [arr[k]]: a property read.  An index that is negative, [NaN] or at
    least [arr.length] names no element and the read evaluates to
    [undefined] ([None]); nothing is thrown. *)
Definition index {A : Type} (arr : list A) (k : num) : option A :=
  match k with
  | NaN => None
  | Int z => if bool_decide (z < 0)%Z then None else arr !! Z.to_nat z
  end.

(** Whether [arr[k]] reads inside the array. *)
Definition in_bounds {A : Type} (arr : list A) (k : num) : bool :=
  match k with
  | NaN => false
  | Int z => bool_decide (0 ≤ z < Z.of_nat (length arr))%Z
  end.

End Js.

(** ** The protocol types of vscode-languageserver that server.ts uses *)

Module Lsp.

Inductive TextDocumentSyncKind : Type :=
| SyncNone
| SyncFull
| SyncIncremental.

Record TextDocument : Type := mkTextDocument {
  uri : string;
  languageId : string;
  version : Z;
  text : string;
}.

Record TextDocumentChangeEvent : Type := mkChange {
  document : TextDocument;
}.

(** The settings payload of a configuration-change notification is opaque
    to server.ts: it is handed on unchanged. *)
Record DidChangeConfigurationParams : Type := mkConfigChange {
  settings : string;
}.

Record InitializeParams : Type := mkInitParams {
  processId : Z;
  rootUri : string;
}.

Record TextDocumentPositionParams : Type := mkPosition {
  pos_uri : string;
  pos_line : Z;
  pos_character : Z;
}.

Record CompletionItem : Type := mkItem {
  label : string;
  kind : Z;
  detail : string;
  data : Js.data;
}.

Record CompletionOptions : Type := mkCompletionOptions {
  resolveProvider : bool;
}.

Record ServerCapabilities : Type := mkCapabilities {
  textDocumentSync : TextDocumentSyncKind;
  completionProvider : CompletionOptions;
}.

Record InitializeResult : Type := mkInitResult {
  capabilities : ServerCapabilities;
}.

(** What a request handler hands back to the connection: the value it
    returned, or a [ResponseError] with a code (the library's
    [HandlerResult<R, E>]). *)
Inductive HandlerResult (R : Type) : Type :=
| Returned (r : R)
| ResponseError (code : Z) (message : string).
Arguments Returned {R} r.
Arguments ResponseError {R} code message.

Definition is_error {R : Type} (h : HandlerResult R) : bool :=
  match h with
  | Returned _ => false
  | ResponseError _ _ => true
  end.

(** The document manager, [new vsclang.TextDocuments()].  Its [syncKind]
    is a property of the manager; the constructor without arguments is the
    full-text manager of the library, which answers
    [TextDocumentSyncKind.Full]. *)
Record TextDocuments : Type := mkTextDocuments {
  syncKind : TextDocumentSyncKind;
  all : list TextDocument;
}.

Definition new_TextDocuments : TextDocuments :=
  {| syncKind := SyncFull; all := [] |}.

(** The synchronisation layer replaces the set of open documents; the
    manager's [syncKind] has no setter. *)
Definition sync (docs : list TextDocument) (d : TextDocuments) : TextDocuments :=
  {| syncKind := syncKind d; all := docs |}.

End Lsp.

(** ** server.ts *)

Module Server.
Import Lsp.

(** Objects are held by reference. *)
Abbreviation loc := positive.

(** Invocations of the functions server.ts imports ([./config],
    [./linter]).  Their bodies are outside server.ts; what server.ts
    decides is which of them is called, with what, and in which order.  A
    call returns to its caller: the linter's failure policy is to publish
    or to log, not to throw. *)
Inductive Call : Type :=
| Config_new (a b : string)
| Config_onChange (settings : string)
| preprocess_call (d : TextDocument).

(** The module-level state of server.ts: the imported [completions] array
    (references to the candidate objects it holds), the object store, the
    document manager, and the calls made so far. *)
Record State : Type := mkState {
  completions : list loc;
  heap : gmap loc CompletionItem;
  documents : TextDocuments;
  calls : list Call;
}.

(** Handlers run to completion on the module state. *)
Definition M (A : Type) : Type := State → A * State.

#[export] Instance M_ret : MRet M := λ A a s, (a, s).
#[export] Instance M_bind : MBind M :=
  λ A B f m s, let '(a, s') := m s in f a s'.

Definition get : M State := λ s, (s, s).

Definition invoke (c : Call) : M unit :=
  λ s, (tt, {| completions := completions s; heap := heap s;
               documents := documents s; calls := calls s ++ [c] |}).

(** [preprocess(document)] from [./linter]. *)
Definition preprocess (d : TextDocument) : M unit :=
  invoke (preprocess_call d).

(** [conf.onChange(settings)] on the server's [conf] object. *)
Definition conf_onChange (settings : string) : M unit :=
  invoke (Config_onChange settings).

(** [Array.prototype.forEach]: the callback receives the element, its
    index and the array, in index order. *)
Fixpoint forEach_from {A : Type} (cb : A → nat → list A → M unit)
    (arr : list A) (i : nat) (rest : list A) : M unit :=
  match rest with
  | [] => mret tt
  | x :: rest' => cb x i arr;; forEach_from cb arr (S i) rest'
  end.

Definition forEach {A : Type} (cb : A → nat → list A → M unit)
    (arr : list A) : M unit :=
  forEach_from cb arr 0 arr.

(** Passing [preprocess] itself as the callback: it takes the document
    and ignores the two further arguments. *)
Definition preprocess_cb : TextDocument → nat → list TextDocument → M unit :=
  λ d _ _, preprocess d.

(** [connection.onInitialize]. *)
Definition onInitialize (params : InitializeParams) : M InitializeResult :=
  s ← get;
  mret {| capabilities :=
            {| textDocumentSync := syncKind (documents s);
               completionProvider := {| resolveProvider := true |} |} |}.

(** [documents.onDidChangeContent]. *)
Definition onDidChangeContent (change : TextDocumentChangeEvent) : M unit :=
  preprocess (document change).

(** [connection.onDidChangeConfiguration]. *)
Definition onDidChangeConfiguration (change : DidChangeConfigurationParams)
    : M unit :=
  conf_onChange (settings change);;
  s ← get;
  forEach preprocess_cb (all (documents s)).

(** [connection.onCompletion]: the array itself. *)
Definition onCompletion (p : TextDocumentPositionParams) : M (list loc) :=
  s ← get;
  mret (completions s).

(** [connection.onCompletionResolve]: [completions[item.data - 1]], a
    reference to the stored candidate or [undefined]; the handler has a
    single [return]. *)
Definition onCompletionResolve (item : CompletionItem)
    : M (HandlerResult (option loc)) :=
  s ← get;
  mret (Returned (Js.index (completions s) (Js.sub (Js.to_number (data item)) 1))).

(** What reaches the handlers.  [SyncLayer] is the document manager at
    work ([documents.listen(connection)]): it has brought its set of open
    documents up to date and, when the content of one changed, fires the
    content-change event. *)
Inductive Message : Type :=
| Initialize (params : InitializeParams)
| SyncLayer (docs : list TextDocument) (fired : option TextDocumentChangeEvent)
| DidChangeConfiguration (change : DidChangeConfigurationParams)
| Completion (p : TextDocumentPositionParams)
| CompletionResolve (item : CompletionItem).

Inductive Reply : Type :=
| InitializeReply (r : InitializeResult)
| CompletionReply (items : list loc)
| ResolveReply (r : HandlerResult (option loc))
| NoReply.

Definition set_documents (docs : list TextDocument) : M unit :=
  λ s, (tt, {| completions := completions s; heap := heap s;
               documents := sync docs (documents s); calls := calls s |}).

Definition dispatch (m : Message) : M Reply :=
  match m with
  | Initialize params => r ← onInitialize params; mret (InitializeReply r)
  | SyncLayer docs fired =>
      set_documents docs;;
      match fired with
      | Some change => onDidChangeContent change
      | None => mret tt
      end;;
      mret NoReply
  | DidChangeConfiguration change =>
      onDidChangeConfiguration change;; mret NoReply
  | Completion p => r ← onCompletion p; mret (CompletionReply r)
  | CompletionResolve item => r ← onCompletionResolve item; mret (ResolveReply r)
  end.

(** The state after a sequence of messages. *)
Definition run (ms : list Message) (s : State) : State :=
  foldl (λ s m, (dispatch m s).2) s ms.

(** The state once the module body has run: [new vsclang.TextDocuments()],
    [new Config('', '')], the given completion list. *)
Definition boot (cs : list loc) (h : gmap loc CompletionItem) : State :=
  {| completions := cs; heap := h; documents := new_TextDocuments;
     calls := [Config_new "" ""] |}.

Definition reachable (s : State) : Prop :=
  ∃ cs h ms, s = run ms (boot cs h).

(** The documents [preprocess] was called on, in call order. *)
Definition preprocess_calls (cs : list Call) : list TextDocument :=
  omap (λ c, match c with preprocess_call d => Some d | _ => None end) cs.

End Server.

(** ** Node's [path] module, POSIX flavour

    [path.basename] and [path.join] as Node documents them for POSIX paths,
    on the segments of a path.  The [Config] class takes its [path]
    implementation from the host; this is the one a POSIX host has. *)

Module Posix.

(** The pieces between the slashes, empty ones included. *)
Fixpoint split (s : string) : list string :=
  match s with
  | EmptyString => [EmptyString]
  | String c s' =>
      if Ascii.eqb c "/"%char then EmptyString :: split s'
      else match split s' with
           | seg :: rest => String c seg :: rest
           | [] => [String c EmptyString]
           end
  end.

Definition nonempty (s : string) : bool := negb (String.eqb s "").

(** [path.basename(p)]: the last non-empty segment, trailing slashes
    ignored; the empty string when there is none. *)
Definition basename (p : string) : string :=
  List.last (List.filter nonempty (split p)) "".

(** One segment of [normalizeString]; the stack holds the kept segments,
    innermost first. *)
Definition push_segment (allowAboveRoot : bool) (stack : list string)
    (seg : string) : list string :=
  if String.eqb seg "" || String.eqb seg "." then stack
  else if String.eqb seg ".." then
    match stack with
    | top :: below =>
        if String.eqb top ".." then
          (if allowAboveRoot then ".." :: stack else stack)
        else below
    | [] => if allowAboveRoot then [".."] else []
    end
  else seg :: stack.

Definition starts_with_slash (p : string) : bool :=
  match p with
  | String c _ => Ascii.eqb c "/"%char
  | EmptyString => false
  end.

Fixpoint ends_with_slash (p : string) : bool :=
  match p with
  | EmptyString => false
  | String c EmptyString => Ascii.eqb c "/"%char
  | String _ p' => ends_with_slash p'
  end.

(** [path.normalize(p)]. *)
Definition normalize (p : string) : string :=
  if String.eqb p "" then "."
  else
    let isAbsolute := starts_with_slash p in
    let trailingSeparator := ends_with_slash p in
    let body :=
      String.concat "/"
        (List.rev (List.fold_left (push_segment (negb isAbsolute)) (split p) [])) in
    if String.eqb body "" then
      (if isAbsolute then "/" else if trailingSeparator then "./" else ".")
    else
      (if isAbsolute then "/" else "") ++ body
        ++ (if trailingSeparator then "/" else "").

(** [path.join(...args)]: the non-empty arguments joined by a slash, then
    normalized; ["."] when nothing is left. *)
Definition join (args : list string) : string :=
  match List.filter nonempty args with
  | [] => "."
  | parts => normalize (String.concat "/" parts)
  end.

(** A plain segment: not empty, not [.] or [..], without a slash. *)
Fixpoint has_slash (s : string) : bool :=
  match s with
  | EmptyString => false
  | String c s' => Ascii.eqb c "/"%char || has_slash s'
  end.

Definition plain (seg : string) : bool :=
  nonempty seg && negb (String.eqb seg ".") && negb (String.eqb seg "..")
    && negb (has_slash seg).

(** The absolute path with the given segments, written plainly:
    [/seg1/seg2/.../segn]. *)
Definition absolute (segs : list string) : string :=
  "/" ++ String.concat "/" segs.

End Posix.

(** ** The Config class *)

Module Client.

Abbreviation loc := positive.

(** A compiled regular expression, by its source and flags. *)
Record RegExp : Type := mkRegExp {
  source : string;
  flags : string;
}.

(** The two functions of Node's [path] the class calls (POSIX or Windows
    flavour, as the platform has it). *)
Record PathModule : Type := mkPath {
  basename : string → string;
  join : list string → string;
}.

Definition posix : PathModule :=
  {| basename := Posix.basename; join := Posix.join |}.

(** What the constructor reads from its surroundings: the configuration
    store ([vscode.workspace.getConfiguration(section).get(key)], which may
    answer [undefined]), [os.tmpdir()], [os.platform()], the workspace name
    and root path (both [undefined] when no folder is open) and [path]. *)
Record Host : Type := mkHost {
  configuration : string → string → option string;
  os_tmpdir : string;
  os_platform : string;
  workspace_name : option string;
  workspace_rootPath : option string;
  path : PathModule;
}.

Record Config : Type := mkConfig {
  minecraftPath : option string;
  glslangPath : option string;
  workDir : string;
  tmpdir : string;
  isWin : bool;
  outputMatch : RegExp;
}.

(** [vscode.ConfigurationChangeEvent]. *)
Record ConfigurationChangeEvent : Type := mkEvent {
  affectsConfiguration : string → bool;
}.

(** The own properties of a Config object, in the order the constructor
    creates them. *)
Inductive Field : Type :=
| F_glslangPath
| F_minecraftPath
| F_isWin
| F_tmpdir
| F_outputMatch
| F_workDir.

Definition own_keys : list Field :=
  [F_glslangPath; F_minecraftPath; F_isWin; F_tmpdir; F_outputMatch; F_workDir].

(** [target[f] = source[f]]. *)
Definition copy_field (src : Config) (f : Field) (tgt : Config) : Config :=
  match f with
  | F_glslangPath =>
      {| minecraftPath := minecraftPath tgt; glslangPath := glslangPath src;
         workDir := workDir tgt; tmpdir := tmpdir tgt; isWin := isWin tgt;
         outputMatch := outputMatch tgt |}
  | F_minecraftPath =>
      {| minecraftPath := minecraftPath src; glslangPath := glslangPath tgt;
         workDir := workDir tgt; tmpdir := tmpdir tgt; isWin := isWin tgt;
         outputMatch := outputMatch tgt |}
  | F_isWin =>
      {| minecraftPath := minecraftPath tgt; glslangPath := glslangPath tgt;
         workDir := workDir tgt; tmpdir := tmpdir tgt; isWin := isWin src;
         outputMatch := outputMatch tgt |}
  | F_tmpdir =>
      {| minecraftPath := minecraftPath tgt; glslangPath := glslangPath tgt;
         workDir := workDir tgt; tmpdir := tmpdir src; isWin := isWin tgt;
         outputMatch := outputMatch tgt |}
  | F_outputMatch =>
      {| minecraftPath := minecraftPath tgt; glslangPath := glslangPath tgt;
         workDir := workDir tgt; tmpdir := tmpdir tgt; isWin := isWin tgt;
         outputMatch := outputMatch src |}
  | F_workDir =>
      {| minecraftPath := minecraftPath tgt; glslangPath := glslangPath tgt;
         workDir := workDir src; tmpdir := tmpdir tgt; isWin := isWin tgt;
         outputMatch := outputMatch tgt |}
  end.

(** The client's world: what [console.log] has printed, and the Config
    objects, held by reference. *)
Record World : Type := mkWorld {
  console : list (list (option string));
  heap : gmap loc Config;
}.

Inductive Error : Type :=
| TypeError (message : string).

Inductive Outcome (A : Type) : Type :=
| Ok (a : A)
| Throw (e : Error).
Arguments Ok {A} a.
Arguments Throw {A} e.

(** Code that prints, writes objects and may throw. *)
Definition C (A : Type) : Type := World → Outcome A * World.

#[export] Instance C_ret : MRet C := λ A a w, (Ok a, w).
#[export] Instance C_bind : MBind C :=
  λ A B f m w,
    match m w with
    | (Ok a, w') => f a w'
    | (Throw e, w') => (Throw e, w')
    end.

Definition throw {A : Type} (e : Error) : C A := λ w, (Throw e, w).

Definition console_log (args : list (option string)) : C unit :=
  λ w, (Ok tt, {| console := console w ++ [args]; heap := heap w |}).

(** [this[f] = v] on the object at [this]. *)
Definition write (this : loc) (upd : Config → Config) : C unit :=
  λ w, (Ok tt, {| console := console w; heap := alter upd this (heap w) |}).

(** [Object.assign(target, source)]: every own property of the source is
    set on the target, one after the other; the target stays the object it
    was. *)
Fixpoint assign_keys (target : loc) (src : Config) (keys : list Field) : C unit :=
  match keys with
  | [] => mret tt
  | f :: keys' => write target (copy_field src f);; assign_keys target src keys'
  end.

Definition Object_assign (target : loc) (src : Config) : C unit :=
  assign_keys target src own_keys.

(** Node validates the arguments of [path.join] and [path.basename]: one
    that is not a string is a [TypeError]. *)
Definition not_a_string : Error :=
  TypeError "The path argument must be of type string".

Fixpoint strings (args : list (option string)) : option (list string) :=
  match args with
  | [] => Some []
  | Some s :: rest => cons s <$> strings rest
  | None :: _ => None
  end.

Definition path_join (p : PathModule) (args : list (option string)) : C string :=
  match strings args with
  | Some ss => mret (join p ss)
  | None => throw not_a_string
  end.

Definition path_basename (p : PathModule) (arg : option string) : C string :=
  match arg with
  | Some s => mret (basename p s)
  | None => throw not_a_string
  end.

Section Imports.

(** [regLinuxOutput], imported from [./linter/glslProvider]. *)
Variable regLinuxOutput : RegExp.

(** [new Config()]: the constructor body, statement by statement.  The
    non-null assertions on the workspace name and root path are erased at
    run time. *)
Definition new_Config (h : Host) : C Config :=
  let c := configuration h "mcglsl" in
  console_log [Some "[MC-GLSL] glslangValidatorPath set to"; c "glslangValidatorPath"];;
  shown ← path_join (path h) [Some (os_tmpdir h); workspace_name h; Some "shaders"];
  console_log [Some "[MC-GLSL] temp directory root set to"; Some shown];;
  let this_glslangPath := c "glslangValidatorPath" in
  let this_minecraftPath := c "minecraftPath" in
  let this_isWin := String.eqb (os_platform h) "win32" in
  this_tmpdir ← path_join (path h) [Some (os_tmpdir h); workspace_name h; Some "shaders"];
  let this_outputMatch := regLinuxOutput in
  base ← path_basename (path h) (workspace_rootPath h);
  this_workDir ←
    (if String.eqb base "shaders" then
       match workspace_rootPath h with
       | Some root => mret root
       | None => throw not_a_string
       end
     else path_join (path h) [workspace_rootPath h; Some "shaders"]);
  mret {| minecraftPath := this_minecraftPath; glslangPath := this_glslangPath;
          workDir := this_workDir; tmpdir := this_tmpdir; isWin := this_isWin;
          outputMatch := this_outputMatch |}.

(** [Config.onChange(e)], called on the object at [this]. *)
Definition onChange (h : Host) (this : loc) (e : ConfigurationChangeEvent) : C unit :=
  if affectsConfiguration e "mcglsl" then
    console_log [Some "[MC-GLSL] config changed"];;
    fresh ← new_Config h;
    Object_assign this fresh
  else mret tt.

End Imports.

(** Reading a field through a reference. *)
Definition read {A : Type} (this : loc) (field : Config → A) (w : World) : option A :=
  field <$> heap w !! this.

(** Configuration changes handled one after the other on the same object,
    each with the host as it is at that moment; a handler that throws ends
    there and the next event is handled in the world it left. *)
Fixpoint handle_changes (regLinuxOutput : RegExp) (this : loc)
    (events : list (Host * ConfigurationChangeEvent)) (w : World) : World :=
  match events with
  | [] => w
  | (h, e) :: events' =>
      handle_changes regLinuxOutput this events'
        (onChange regLinuxOutput h this e w).2
  end.

(** The data model's wording of a configuration change, an
    immutable-per-generation value object that is replaced and not mutated:
    the object a consumer already holds keeps the fields it had, the new
    generation being another object. *)
Definition immutable_per_generation (regLinuxOutput : RegExp) (h : Host)
    (this : loc) (e : ConfigurationChangeEvent) (w : World) : Prop :=
  heap (onChange regLinuxOutput h this e w).2 !! this = heap w !! this.

(** The design note's wording of the output pattern, a variant selected by
    the platform flag at construction: Configs built with different flags
    hold different patterns. *)
Definition platform_specific (c1 c2 : Config) : Prop :=
  isWin c1 ≠ isWin c2 → outputMatch c1 ≠ outputMatch c2.

End Client.

(** ** Sample data *)

Module Samples.
Import Lsp.

Definition gl_Position : CompletionItem :=
  {| label := "gl_Position"; kind := 6; detail := "vec4"; data := Js.DInt 1 |}.

Definition gl_FragCoord : CompletionItem :=
  {| label := "gl_FragCoord"; kind := 6; detail := "vec4"; data := Js.DInt 2 |}.

(** Two candidates, stored at references 10 and 11. *)
Definition store : gmap positive CompletionItem :=
  {[ 10%positive := gl_Position; 11%positive := gl_FragCoord ]}.

Definition server0 : Server.State :=
  Server.boot [10%positive; 11%positive] store.

(** A resolve request as a client sends it: only [data] matters. *)
Definition request (d : Js.data) : CompletionItem :=
  {| label := "?"; kind := 0; detail := ""; data := d |}.

Definition final_fsh : TextDocument :=
  {| uri := "file:///proj/shaders/final.fsh"; languageId := "glsl";
     version := 1; text := "void main() {}" |}.

Definition regLinuxOutput : Client.RegExp :=
  {| Client.source := "^(WARNING|ERROR): ([^:]+):(\d+): (.+)"; Client.flags := "" |}.

Definition settings0 (section key : string) : option string :=
  if String.eqb section "mcglsl" && String.eqb key "glslangValidatorPath"
  then Some "glslangValidator" else None.

Definition host_linux : Client.Host :=
  {| Client.configuration := settings0;
     Client.os_tmpdir := "/tmp";
     Client.os_platform := "linux";
     Client.workspace_name := Some "pack";
     Client.workspace_rootPath := Some "/proj";
     Client.path := Client.posix |}.

(** The same host in everything but what [os.platform()] answers. *)
Definition host_win32 : Client.Host :=
  {| Client.configuration := settings0;
     Client.os_tmpdir := "/tmp";
     Client.os_platform := "win32";
     Client.workspace_name := Some "pack";
     Client.workspace_rootPath := Some "/proj";
     Client.path := Client.posix |}.

(** The host after the user has pointed the settings elsewhere and reopened
    another folder. *)
Definition settings1 (section key : string) : option string :=
  if String.eqb section "mcglsl" && String.eqb key "glslangValidatorPath"
  then Some "/opt/glslang/bin/glslangValidator" else None.

Definition host_later : Client.Host :=
  {| Client.configuration := settings1;
     Client.os_tmpdir := "/var/tmp";
     Client.os_platform := "linux";
     Client.workspace_name := Some "other";
     Client.workspace_rootPath := Some "/home/me/other/shaders";
     Client.path := Client.posix |}.

Definition generation0 : Client.Config :=
  {| Client.minecraftPath := None;
     Client.glslangPath := Some "glslangValidator";
     Client.workDir := "/proj/shaders";
     Client.tmpdir := "/tmp/pack/shaders";
     Client.isWin := false;
     Client.outputMatch := regLinuxOutput |}.

Definition generation1 : Client.Config :=
  {| Client.minecraftPath := None;
     Client.glslangPath := Some "/opt/glslang/bin/glslangValidator";
     Client.workDir := "/home/me/other/shaders";
     Client.tmpdir := "/var/tmp/other/shaders";
     Client.isWin := false;
     Client.outputMatch := regLinuxOutput |}.

(** The client's single Config object, at reference 1. *)
Definition conf : positive := 1%positive.

Definition world0 : Client.World :=
  {| Client.console := []; Client.heap := {[ conf := generation0 ]} |}.

Definition affects_mcglsl : Client.ConfigurationChangeEvent :=
  {| Client.affectsConfiguration := λ section, String.eqb section "mcglsl" |}.

Definition affects_editor : Client.ConfigurationChangeEvent :=
  {| Client.affectsConfiguration := λ section, String.eqb section "editor" |}.

End Samples.

(** ** Further notions and sample data *)

Module Behaviour.
Import Lsp.

(** The messages that are requests: the client waits for their reply. *)
Definition is_request (m : Server.Message) : bool :=
  match m with
  | Server.Initialize _ | Server.Completion _ | Server.CompletionResolve _ => true
  | Server.SyncLayer _ _ | Server.DidChangeConfiguration _ => false
  end.


(** The Config the constructor builds for a host whose workspace has the
    given name and root path, field by field. *)
Definition constructed (regLinuxOutput : Client.RegExp) (h : Client.Host)
    (name root : string) : Client.Config :=
  {| Client.minecraftPath := Client.configuration h "mcglsl" "minecraftPath";
     Client.glslangPath := Client.configuration h "mcglsl" "glslangValidatorPath";
     Client.workDir :=
       if String.eqb (Client.basename (Client.path h) root) "shaders" then root
       else Client.join (Client.path h) [root; "shaders"];
     Client.tmpdir := Client.join (Client.path h) [Client.os_tmpdir h; name; "shaders"];
     Client.isWin := String.eqb (Client.os_platform h) "win32";
     Client.outputMatch := regLinuxOutput |}.

(** A window without a folder: no workspace name, no root path. *)
Definition host_no_folder : Client.Host :=
  {| Client.configuration := Samples.settings0;
     Client.os_tmpdir := "/tmp";
     Client.os_platform := "linux";
     Client.workspace_name := None;
     Client.workspace_rootPath := None;
     Client.path := Client.posix |}.

(** A workspace with a name and no single root path. *)
Definition host_no_root : Client.Host :=
  {| Client.configuration := Samples.settings0;
     Client.os_tmpdir := "/tmp";
     Client.os_platform := "linux";
     Client.workspace_name := Some "pack";
     Client.workspace_rootPath := None;
     Client.path := Client.posix |}.

(** The folder that [host_linux] derived as its working directory, opened
    as the project root. *)
Definition host_reopened : Client.Host :=
  {| Client.configuration := Samples.settings0;
     Client.os_tmpdir := "/tmp";
     Client.os_platform := "linux";
     Client.workspace_name := Some "shaders";
     Client.workspace_rootPath := Some "/proj/shaders";
     Client.path := Client.posix |}.

(** A second Config object, at another reference. *)
Definition other : positive := 2%positive.

Definition world_two : Client.World :=
  {| Client.console := [];
     Client.heap := {[ Samples.conf := Samples.generation0;
                       other := Samples.generation1 ]} |}.

End Behaviour.

(** * Properties of server.ts *)

Local Open Scope list_scope.

Section ServerFacts.
Import Lsp Server.

Implicit Types (s : State) (ms : list Message) (item : CompletionItem).

Ltac run_handler :=
  unfold onDidChangeConfiguration, onDidChangeContent, onCompletionResolve,
    onCompletion, onInitialize, set_documents, conf_onChange, preprocess,
    invoke, get, mbind, M_bind, mret, M_ret; simpl.

(** [forEach(preprocess)] calls [preprocess] on the elements in order and
    touches nothing else. *)
Lemma forEach_from_preprocess (rest arr : list TextDocument) (i : nat) s :
  forEach_from preprocess_cb arr i rest s =
    (tt, {| completions := completions s; heap := heap s;
            documents := documents s;
            calls := calls s ++ map preprocess_call rest |}).
Proof.
  revert i s. induction rest as [|d rest IH]; intros i s.
  - simpl. rewrite app_nil_r. by destruct s.
  - simpl. unfold preprocess_cb at 1. run_handler. rewrite IH. simpl.
    by rewrite <- app_assoc.
Qed.

Lemma onDidChangeConfiguration_run (change : DidChangeConfigurationParams) s :
  onDidChangeConfiguration change s =
    (tt, {| completions := completions s; heap := heap s;
            documents := documents s;
            calls := calls s ++ Config_onChange (settings change)
                       :: map preprocess_call (all (documents s)) |}).
Proof.
  run_handler. unfold forEach. rewrite forEach_from_preprocess. simpl.
  by rewrite <- app_assoc.
Qed.

(** No message changes the completion array, the stored candidates or the
    manager's sync kind. *)
Lemma dispatch_frame (m : Message) s :
  completions (dispatch m s).2 = completions s
  ∧ heap (dispatch m s).2 = heap s
  ∧ syncKind (documents (dispatch m s).2) = syncKind (documents s).
Proof.
  destruct m as [params|docs [change|]|change|p|item]; simpl;
    try (run_handler; done).
  unfold mbind, M_bind. rewrite onDidChangeConfiguration_run. done.
Qed.

Lemma run_frame ms s :
  completions (run ms s) = completions s
  ∧ heap (run ms s) = heap s
  ∧ syncKind (documents (run ms s)) = syncKind (documents s).
Proof.
  revert s. induction ms as [|m ms IH]; intros s; [done|].
  unfold run in *. simpl. destruct (IH (dispatch m s).2) as (Hc & Hh & Hk).
  destruct (dispatch_frame m s) as (Hc' & Hh' & Hk').
  rewrite Hc, Hh, Hk. done.
Qed.

Lemma onCompletionResolve_run item s :
  onCompletionResolve item s =
    (Returned (Js.index (completions s) (Js.sub (Js.to_number (data item)) 1)), s).
Proof. reflexivity. Qed.

Lemma index_in_range {A : Type} (arr : list A) (i : Z) :
  (1 ≤ i ≤ Z.of_nat (length arr))%Z →
  ∃ x, arr !! Z.to_nat (i - 1) = Some x
       ∧ Js.index arr (Js.Int (i - 1)) = Some x.
Proof.
  intros Hi.
  destruct (lookup_lt_is_Some_2 arr (Z.to_nat (i - 1))) as [x Hx]; [lia|].
  exists x. split; [done|]. simpl. rewrite bool_decide_false by lia. done.
Qed.

Lemma index_out_of_range {A : Type} (arr : list A) (k : Js.num) :
  Js.in_bounds arr k = false → Js.index arr k = None.
Proof.
  destruct k as [|z]; [done|]. simpl. intros Hb.
  apply bool_decide_eq_false in Hb. case_bool_decide; [done|].
  apply lookup_ge_None. lia.
Qed.

(** C1, as the code has it: for an id [i] in [1, N] the resolve handler
    returns the reference stored at position [i - 1] of the completion
    array, the same reference (and the same stored candidate behind it)
    after any sequence of messages; for id [0] and id [N + 1] the index is
    outside the array, the read evaluates to [undefined], and the handler
    returns that as its ordinary result. *)
Theorem resolve_by_index s item (i : Z) :
  data item = Js.DInt i →
  ((1 ≤ i ≤ Z.of_nat (length (completions s)))%Z →
     ∃ r, completions s !! Z.to_nat (i - 1) = Some r
        ∧ ∀ ms, onCompletionResolve item (run ms s) = (Returned (Some r), run ms s)
              ∧ heap (run ms s) !! r = heap s !! r)
  ∧ ((i = 0 ∨ i = Z.of_nat (length (completions s)) + 1)%Z →
     ∀ ms, onCompletionResolve item (run ms s) = (Returned None, run ms s)
         ∧ Js.in_bounds (completions (run ms s)) (Js.Int (i - 1)) = false).
Proof.
  intros Hdata. split.
  - intros Hi. destruct (index_in_range (completions s) i Hi) as (r & Hr & Hidx).
    exists r. split; [done|]. intros ms.
    destruct (run_frame ms s) as (Hc & Hh & _).
    rewrite onCompletionResolve_run, Hdata, Hc, Hh. simpl Js.sub.
    by rewrite Hidx.
  - intros Hi ms. destruct (run_frame ms s) as (Hc & _ & _).
    assert (Hout : Js.in_bounds (completions s) (Js.Int (i - 1)) = false).
    { simpl. apply bool_decide_eq_false. lia. }
    rewrite onCompletionResolve_run, Hdata, Hc. simpl Js.sub. split; [|done].
    by rewrite (index_out_of_range _ _ Hout).
Qed.

Lemma resolve_by_index_witness :
  data (Samples.request (Js.DInt 1)) = Js.DInt 1
  ∧ (1 ≤ 1 ≤ Z.of_nat (length (completions Samples.server0)))%Z
  ∧ ∃ r, completions Samples.server0 !! Z.to_nat (1 - 1) = Some r
       ∧ ∀ ms, onCompletionResolve (Samples.request (Js.DInt 1)) (run ms Samples.server0)
                 = (Returned (Some r), run ms Samples.server0)
             ∧ heap (run ms Samples.server0) !! r = heap Samples.server0 !! r.
Proof.
  split; [reflexivity|]. split; [simpl; lia|].
  apply (resolve_by_index Samples.server0 (Samples.request (Js.DInt 1)) 1 eq_refl).
  simpl; lia.
Defined.

(** C1, as stated, fails on ids [0] and [N + 1]: with two candidates, both
    requests are answered by an ordinary return of [undefined], read from
    outside the array; neither is a failure response. *)
Lemma resolve_out_of_range_returns_undefined :
  length (completions Samples.server0) = 2
  ∧ (onCompletionResolve (Samples.request (Js.DInt 0)) Samples.server0).1 = Returned None
  ∧ (onCompletionResolve (Samples.request (Js.DInt 3)) Samples.server0).1 = Returned None
  ∧ is_error (onCompletionResolve (Samples.request (Js.DInt 0)) Samples.server0).1 = false
  ∧ is_error (onCompletionResolve (Samples.request (Js.DInt 3)) Samples.server0).1 = false
  ∧ Js.in_bounds (completions Samples.server0) (Js.Int (0 - 1)) = false
  ∧ Js.in_bounds (completions Samples.server0) (Js.Int (3 - 1)) = false.
Proof. repeat split; reflexivity. Qed.

(** C7: the configuration-change handler calls [conf.onChange] with the
    settings of the notification, and after it [preprocess] once on each
    document the manager lists, in the manager's order; it makes no other
    call and changes nothing else in the module state. *)
Theorem configuration_change_calls s (change : DidChangeConfigurationParams) :
  calls (onDidChangeConfiguration change s).2 =
    calls s ++ Config_onChange (settings change)
      :: map preprocess_call (all (documents s))
  ∧ preprocess_calls
      (drop (S (length (calls s))) (calls (onDidChangeConfiguration change s).2))
    = all (documents s)
  ∧ (dispatch (DidChangeConfiguration change) s).2 =
      (onDidChangeConfiguration change s).2.
Proof.
  rewrite onDidChangeConfiguration_run. simpl. split; [done|]. split.
  - rewrite cons_middle, app_assoc, drop_app_length'
      by (rewrite length_app; simpl; lia).
    unfold preprocess_calls. induction (all (documents s)) as [|d l IH]; [done|].
    simpl. by f_equal.
  - unfold mbind, M_bind. by rewrite onDidChangeConfiguration_run.
Qed.

(** C8: a content-change event makes exactly one call, [preprocess] on the
    document of the event, whether the handler is run directly or reached
    through the document manager. *)
Theorem content_change_preprocesses_once s (change : TextDocumentChangeEvent)
    (docs : list TextDocument) :
  calls (onDidChangeContent change s).2
    = calls s ++ [preprocess_call (document change)]
  ∧ calls (dispatch (SyncLayer docs (Some change)) s).2
    = calls s ++ [preprocess_call (document change)]
  ∧ calls (dispatch (SyncLayer docs None) s).2 = calls s.
Proof. repeat split; reflexivity. Qed.

(** C9: in every state the server can reach, the initialize handler
    answers with full-document synchronisation and a completion provider
    that resolves. *)
Theorem initialize_capabilities s (params : InitializeParams) :
  reachable s →
  (onInitialize params s).1 =
    {| capabilities :=
         {| textDocumentSync := SyncFull;
            completionProvider := {| resolveProvider := true |} |} |}.
Proof.
  intros (cs & h & ms & ->). run_handler.
  destruct (run_frame ms (boot cs h)) as (_ & _ & ->). done.
Qed.

Lemma initialize_capabilities_witness :
  reachable (run [SyncLayer [Samples.final_fsh] None] Samples.server0)
  ∧ (onInitialize {| processId := 1; rootUri := "file:///proj" |}
       (run [SyncLayer [Samples.final_fsh] None] Samples.server0)).1 =
    {| capabilities :=
         {| textDocumentSync := SyncFull;
            completionProvider := {| resolveProvider := true |} |} |}.
Proof.
  assert (H : reachable (run [SyncLayer [Samples.final_fsh] None] Samples.server0)).
  { exists [10%positive; 11%positive], Samples.store,
      [SyncLayer [Samples.final_fsh] None]. reflexivity. }
  split; [exact H|]. exact (initialize_capabilities _ _ H).
Defined.

(** C10: two resolve requests whose items carry the same [data] get the
    same answer, whatever the other fields of the items and whatever
    messages the server handled before either request; the stored
    candidates are the same at both moments. *)
Theorem resolve_depends_on_data_only s ms1 ms2 item1 item2 :
  data item1 = data item2 →
  (onCompletionResolve item1 (run ms1 s)).1
    = (onCompletionResolve item2 (run ms2 s)).1
  ∧ heap (run ms1 s) = heap (run ms2 s).
Proof.
  intros Hdata.
  destruct (run_frame ms1 s) as (Hc1 & Hh1 & _).
  destruct (run_frame ms2 s) as (Hc2 & Hh2 & _).
  rewrite !onCompletionResolve_run. simpl. by rewrite Hdata, Hc1, Hc2, Hh1, Hh2.
Qed.

Lemma resolve_depends_on_data_only_witness :
  data Samples.gl_FragCoord = data (Samples.request (Js.DInt 2))
  ∧ (onCompletionResolve Samples.gl_FragCoord (run [] Samples.server0)).1
    = (onCompletionResolve (Samples.request (Js.DInt 2))
         (run [CompletionResolve (Samples.request (Js.DInt 1));
               SyncLayer [Samples.final_fsh] (Some {| document := Samples.final_fsh |})]
            Samples.server0)).1
  ∧ heap (run [] Samples.server0)
    = heap (run [CompletionResolve (Samples.request (Js.DInt 1));
                 SyncLayer [Samples.final_fsh] (Some {| document := Samples.final_fsh |})]
              Samples.server0).
Proof.
  split; [reflexivity|].
  exact (resolve_depends_on_data_only Samples.server0 [] _ _ _ eq_refl).
Defined.

End ServerFacts.

(** * POSIX paths written plainly *)

Section PosixFacts.
Import Posix.

Implicit Types (s t seg : string) (segs : list string).

Lemma append_cons (c : ascii) s t :
  (String c s ++ t)%string = String c (s ++ t)%string.
Proof. reflexivity. Qed.

Lemma append_empty_l s : ("" ++ s)%string = s.
Proof. reflexivity. Qed.

Lemma append_empty_r s : (s ++ "")%string = s.
Proof.
  induction s as [|c s IH]; [done|]. by rewrite append_cons, IH.
Qed.

Lemma append_assoc s t u : ((s ++ t) ++ u)%string = (s ++ (t ++ u))%string.
Proof.
  induction s as [|c s IH]; [done|]. by rewrite !append_cons, IH.
Qed.

Lemma split_not_nil s : split s ≠ [].
Proof.
  destruct s as [|c s]; simpl; [done|].
  destruct (Ascii.eqb c "/"); [done|]. by destruct (split s).
Qed.

(** A piece without slash, a slash, and the rest. *)
Lemma split_append_slash s t :
  has_slash s = false → split (s ++ String "/" t) = s :: split t.
Proof.
  induction s as [|c s IH]; [done|]. rewrite append_cons. simpl.
  intros [Hc Hs]%orb_false_elim. rewrite Hc. by rewrite (IH Hs).
Qed.

Lemma split_no_slash s : has_slash s = false → split s = [s].
Proof.
  induction s as [|c s IH]; simpl; [done|].
  intros [Hc Hs]%orb_false_elim. rewrite Hc. by rewrite (IH Hs).
Qed.

Lemma plain_inv seg :
  plain seg = true →
  seg ≠ "" ∧ seg ≠ "." ∧ seg ≠ ".." ∧ has_slash seg = false.
Proof.
  unfold plain, nonempty.
  intros [[[H1 H2]%andb_prop H3]%andb_prop H4]%andb_prop.
  apply negb_true_iff in H1, H2, H3, H4.
  apply String.eqb_neq in H1, H2, H3. done.
Qed.

Lemma plain_no_slash seg : plain seg = true → has_slash seg = false.
Proof. by intros (_ & _ & _ & ?)%plain_inv. Qed.

Lemma plain_not_empty seg : plain seg = true → seg ≠ "".
Proof. by intros (? & _)%plain_inv. Qed.

Lemma plain_nonempty seg : plain seg = true → nonempty seg = true.
Proof.
  intros Hne%plain_not_empty. unfold nonempty.
  by apply negb_true_iff, String.eqb_neq.
Qed.

Lemma split_concat seg segs :
  Forall (λ x, plain x = true) (seg :: segs) →
  split (String.concat "/" (seg :: segs)) = seg :: segs.
Proof.
  revert seg. induction segs as [|seg' segs IH]; intros seg Hplain.
  - simpl. apply split_no_slash.
    apply Forall_cons_1 in Hplain as [Hseg _]. by apply plain_no_slash.
  - apply Forall_cons_1 in Hplain as [Hseg Hrest].
    change (String.concat "/" (seg :: seg' :: segs))
      with (seg ++ String "/" (String.concat "/" (seg' :: segs)))%string.
    rewrite split_append_slash by (by apply plain_no_slash).
    by rewrite IH.
Qed.

Lemma push_plain (above : bool) (stack : list string) seg :
  plain seg = true → push_segment above stack seg = seg :: stack.
Proof.
  intros (H1 & H2 & H3 & _)%plain_inv. unfold push_segment.
  apply String.eqb_neq in H1, H2, H3. by rewrite H1, H2, H3.
Qed.

Lemma fold_push_plain (above : bool) segs (stack : list string) :
  Forall (λ x, plain x = true) segs →
  fold_left (push_segment above) segs stack = rev segs ++ stack.
Proof.
  revert stack. induction segs as [|seg segs IH]; intros stack Hplain; [done|].
  apply Forall_cons_1 in Hplain as [Hseg Hrest]. simpl.
  rewrite push_plain by done. rewrite IH by done. by rewrite <- app_assoc.
Qed.

Lemma ends_with_slash_append s t :
  t ≠ "" → ends_with_slash (s ++ t) = ends_with_slash t.
Proof.
  intros Ht. induction s as [|c s IH]; [done|].
  rewrite append_cons. simpl. destruct (s ++ t)%string eqn:Hst; [|done].
  destruct s; [by rewrite append_empty_l in Hst|].
  by rewrite append_cons in Hst.
Qed.

Lemma ends_with_slash_plain seg :
  seg ≠ "" → has_slash seg = false → ends_with_slash seg = false.
Proof.
  induction seg as [|c seg IH]; [done|]. intros _. simpl.
  intros [Hc Hs]%orb_false_elim. destruct seg as [|c' seg]; [done|].
  by apply IH.
Qed.

Lemma concat_not_empty seg segs :
  seg ≠ "" → String.concat "/" (seg :: segs) ≠ "".
Proof. destruct seg; [done|]. by destruct segs. Qed.

Lemma ends_with_slash_concat seg segs :
  Forall (λ x, plain x = true) (seg :: segs) →
  ends_with_slash (String.concat "/" (seg :: segs)) = false.
Proof.
  revert seg. induction segs as [|seg' segs IH]; intros seg Hplain;
    apply Forall_cons_1 in Hplain as [Hseg Hrest].
  - apply ends_with_slash_plain;
      [by apply plain_not_empty | by apply plain_no_slash].
  - change (String.concat "/" (seg :: seg' :: segs))
      with (seg ++ ("/" ++ String.concat "/" (seg' :: segs)))%string.
    rewrite ends_with_slash_append by done.
    rewrite ends_with_slash_append; [by apply IH|].
    apply concat_not_empty.
    apply Forall_cons_1 in Hrest as [Hseg' _]. by apply plain_not_empty.
Qed.

(** A plainly written absolute path is its own normal form. *)
Lemma normalize_absolute seg segs :
  Forall (λ x, plain x = true) (seg :: segs) →
  normalize (absolute (seg :: segs)) = absolute (seg :: segs).
Proof.
  intros Hplain. unfold normalize, absolute.
  change ("/" ++ String.concat "/" (seg :: segs))%string
    with (String "/" (String.concat "/" (seg :: segs))).
  cbn [String.eqb starts_with_slash Ascii.eqb Bool.eqb negb].
  assert (Hsplit : split (String "/" (String.concat "/" (seg :: segs)))
                   = "" :: seg :: segs).
  { change (String "/" (String.concat "/" (seg :: segs)))
      with ("" ++ String "/" (String.concat "/" (seg :: segs)))%string.
    rewrite split_append_slash by done. by rewrite split_concat. }
  rewrite Hsplit.
  change (fold_left (push_segment false) ("" :: seg :: segs) [])
    with (fold_left (push_segment false) (seg :: segs) []).
  rewrite fold_push_plain by done. rewrite app_nil_r, rev_involutive.
  assert (Hne : String.concat "/" (seg :: segs) ≠ "").
  { apply concat_not_empty. apply Forall_cons_1 in Hplain as [Hseg _].
    by apply plain_not_empty. }
  apply String.eqb_neq in Hne. rewrite Hne.
  change (String "/" (String.concat "/" (seg :: segs)))
    with ("/" ++ String.concat "/" (seg :: segs))%string.
  rewrite ends_with_slash_append by (by apply String.eqb_neq).
  rewrite ends_with_slash_concat by done. by rewrite append_empty_r.
Qed.

Lemma concat_app seg segs t ts :
  String.concat "/" ((seg :: segs) ++ t :: ts)
  = (String.concat "/" (seg :: segs) ++ "/" ++ String.concat "/" (t :: ts))%string.
Proof.
  revert seg. induction segs as [|seg' segs IH]; intros seg; [done|].
  change (String.concat "/" ((seg :: seg' :: segs) ++ t :: ts))
    with (seg ++ "/" ++ String.concat "/" ((seg' :: segs) ++ t :: ts))%string.
  rewrite IH.
  change (String.concat "/" (seg :: seg' :: segs))
    with (seg ++ "/" ++ String.concat "/" (seg' :: segs))%string.
  by rewrite !append_assoc.
Qed.

Lemma filter_nonempty_plain segs :
  Forall (λ x, plain x = true) segs → List.filter nonempty segs = segs.
Proof.
  intros Hplain. apply forallb_filter_id, forallb_forall.
  intros x Hx. apply (proj1 (List.Forall_forall _ _) Hplain) in Hx.
  by apply plain_nonempty.
Qed.

(** Joining plain segments onto a plainly written absolute path gives the
    absolute path with the segments appended. *)
Lemma join_absolute seg segs ts :
  Forall (λ x, plain x = true) (seg :: segs) →
  Forall (λ x, plain x = true) ts →
  join (absolute (seg :: segs) :: ts) = absolute ((seg :: segs) ++ ts).
Proof.
  intros Hplain Hts. unfold join. cbn [List.filter].
  change (nonempty (absolute (seg :: segs))) with true. cbn iota.
  rewrite filter_nonempty_plain by done.
  destruct ts as [|t ts].
  - rewrite app_nil_r. by apply normalize_absolute.
  - change (String.concat "/" (absolute (seg :: segs) :: t :: ts))
      with (absolute (seg :: segs) ++ "/" ++ String.concat "/" (t :: ts))%string.
    unfold absolute at 1. rewrite append_cons, append_empty_l, append_cons.
    rewrite <- concat_app.
    change (String "/" (String.concat "/" ((seg :: segs) ++ t :: ts)))
      with (absolute (seg :: (segs ++ t :: ts))).
    apply normalize_absolute.
    change (seg :: segs ++ t :: ts) with ((seg :: segs) ++ t :: ts).
    by apply Forall_app.
Qed.

(** Appending segments to a plainly written absolute path is writing them
    behind it, a slash before each. *)
Lemma absolute_snoc seg segs t :
  absolute ((seg :: segs) ++ [t]) = (absolute (seg :: segs) ++ "/" ++ t)%string.
Proof.
  unfold absolute. rewrite concat_app.
  by rewrite !append_cons, !append_empty_l.
Qed.

(** The base name of a plainly written absolute path is its last
    segment. *)
Lemma basename_absolute seg segs :
  Forall (λ x, plain x = true) (seg :: segs) →
  basename (absolute (seg :: segs)) = List.last (seg :: segs) "".
Proof.
  intros Hplain. unfold basename, absolute.
  change ("/" ++ String.concat "/" (seg :: segs))%string
    with ("" ++ String "/" (String.concat "/" (seg :: segs)))%string.
  rewrite split_append_slash by done. rewrite split_concat by done.
  change (List.filter nonempty ("" :: seg :: segs))
    with (List.filter nonempty (seg :: segs)).
  by rewrite filter_nonempty_plain.
Qed.

(** The same with a doubled leading slash, as joining onto the root
    directory writes it. *)
Lemma normalize_double_slash seg segs :
  Forall (λ x, plain x = true) (seg :: segs) →
  normalize (String "/" (absolute (seg :: segs))) = absolute (seg :: segs).
Proof.
  intros Hplain. unfold normalize, absolute.
  rewrite append_cons, append_empty_l.
  cbn [String.eqb starts_with_slash Ascii.eqb Bool.eqb negb].
  assert (Hsplit :
    split (String "/" (String "/" (String.concat "/" (seg :: segs))))
    = "" :: "" :: seg :: segs).
  { change (String "/" (String "/" (String.concat "/" (seg :: segs))))
      with ("" ++ String "/" ("" ++ String "/" (String.concat "/" (seg :: segs))))%string.
    rewrite !split_append_slash by done. by rewrite split_concat. }
  rewrite Hsplit.
  change (fold_left (push_segment false) ("" :: "" :: seg :: segs) [])
    with (fold_left (push_segment false) (seg :: segs) []).
  rewrite fold_push_plain by done. rewrite app_nil_r, rev_involutive.
  assert (Hne : String.concat "/" (seg :: segs) ≠ "").
  { apply concat_not_empty. apply Forall_cons_1 in Hplain as [Hseg _].
    by apply plain_not_empty. }
  apply String.eqb_neq in Hne. rewrite Hne.
  change (String "/" (String "/" (String.concat "/" (seg :: segs))))
    with ("//" ++ String.concat "/" (seg :: segs))%string.
  rewrite ends_with_slash_append by (by apply String.eqb_neq).
  rewrite ends_with_slash_concat by done.
  by rewrite append_empty_r, append_cons, append_empty_l.
Qed.

(** Joining plain segments onto a plainly written absolute path, the root
    directory [/] included (no segments). *)
Lemma join_absolute_any segs ts :
  Forall (λ x, plain x = true) segs →
  Forall (λ x, plain x = true) ts →
  join (absolute segs :: ts) = absolute (segs ++ ts).
Proof.
  intros Hsegs Hts. destruct segs as [|seg segs];
    [|by apply join_absolute].
  rewrite app_nil_l. unfold join. cbn [List.filter].
  change (nonempty (absolute [])) with true. cbn iota.
  rewrite filter_nonempty_plain by done.
  destruct ts as [|t ts]; [reflexivity|].
  change (String.concat "/" (absolute [] :: t :: ts))
    with (absolute [] ++ "/" ++ String.concat "/" (t :: ts))%string.
  change (absolute []) with "/".
  rewrite !append_cons, !append_empty_l.
  change (String "/" (String.concat "/" (t :: ts))) with (absolute (t :: ts)).
  by apply normalize_double_slash.
Qed.

(** The base name of a plainly written absolute path is its last segment;
    the root directory has none. *)
Lemma basename_absolute_any segs :
  Forall (λ x, plain x = true) segs →
  basename (absolute segs) = List.last segs "".
Proof.
  intros Hsegs. destruct segs as [|seg segs]; [reflexivity|].
  by apply basename_absolute.
Qed.

Lemma absolute_append seg segs t ts :
  absolute ((seg :: segs) ++ t :: ts)
  = (absolute (seg :: segs) ++ "/" ++ String.concat "/" (t :: ts))%string.
Proof.
  unfold absolute. rewrite concat_app.
  by rewrite !append_cons, !append_empty_l.
Qed.

End PosixFacts.

(** * Properties of the Config class *)

Section ConfigFacts.
Import Client.

Variable regLinuxOutput : RegExp.

Implicit Types (h : Host) (w : World) (e : ConfigurationChangeEvent)
  (this : loc).

Ltac run_client :=
  unfold path_join, path_basename, console_log, write, throw,
    mbind, C_bind, mret, C_ret; simpl.

(** With a workspace open the constructor returns, and each field is the
    expression the constructor assigns to it. *)
Lemma new_Config_ok h w (name root : string) :
  workspace_name h = Some name →
  workspace_rootPath h = Some root →
  new_Config regLinuxOutput h w =
    (Ok {| minecraftPath := configuration h "mcglsl" "minecraftPath";
           glslangPath := configuration h "mcglsl" "glslangValidatorPath";
           workDir := if String.eqb (basename (path h) root) "shaders" then root
                      else join (path h) [root; "shaders"];
           tmpdir := join (path h) [os_tmpdir h; name; "shaders"];
           isWin := String.eqb (os_platform h) "win32";
           outputMatch := regLinuxOutput |},
     {| console := console w ++
          [[Some "[MC-GLSL] glslangValidatorPath set to";
            configuration h "mcglsl" "glslangValidatorPath"];
           [Some "[MC-GLSL] temp directory root set to";
            Some (join (path h) [os_tmpdir h; name; "shaders"])]];
        heap := heap w |}).
Proof.
  intros Hname Hroot. unfold new_Config. run_client.
  rewrite Hname, Hroot. simpl. rewrite <- app_assoc. simpl.
  by destruct (String.eqb (basename (path h) root) "shaders").
Qed.

(** Without a workspace name or root path the constructor throws, having
    written to no object. *)
Lemma new_Config_throws h w :
  workspace_name h = None ∨ workspace_rootPath h = None →
  ∃ w', new_Config regLinuxOutput h w = (Throw not_a_string, w')
        ∧ heap w' = heap w.
Proof.
  intros Hnone. unfold new_Config. run_client.
  destruct (workspace_name h) as [name|] eqn:Hname; simpl.
  - destruct Hnone as [?|Hroot]; [done|]. rewrite Hroot. simpl. eauto.
  - eauto.
Qed.

(** [Object.assign] onto an existing Config leaves the object holding the
    source's value in every field. *)
Lemma Object_assign_run this (src old : Config) w :
  heap w !! this = Some old →
  Object_assign this src w =
    (Ok tt, {| console := console w; heap := <[this := src]> (heap w) |}).
Proof.
  intros Hold. unfold Object_assign, own_keys, assign_keys. run_client.
  f_equal. f_equal. apply map_eq. intros k.
  destruct (decide (k = this)) as [->|Hne].
  - rewrite lookup_insert_eq. rewrite !lookup_alter_eq, Hold. simpl.
    by destruct src.
  - rewrite lookup_insert_ne by done. by rewrite !lookup_alter_ne.
Qed.

(** The layout on POSIX paths, in the words of the specification: with
    the temp root and the project root written plainly and a workspace
    name of one segment, the staging directory is
    [<tmp>/<name>/shaders] and the working directory is the root when its
    last segment is [shaders], the root followed by [/shaders] when not. *)
Lemma posix_layout h w (name t r : string) (ts rs : list string) :
  path h = posix →
  os_tmpdir h = Posix.absolute (t :: ts) →
  Forall (λ x, Posix.plain x = true) (t :: ts) →
  workspace_name h = Some name →
  Posix.plain name = true →
  workspace_rootPath h = Some (Posix.absolute (r :: rs)) →
  Forall (λ x, Posix.plain x = true) (r :: rs) →
  ∃ c w', new_Config regLinuxOutput h w = (Ok c, w')
    ∧ tmpdir c = (os_tmpdir h ++ "/" ++ name ++ "/shaders")%string
    ∧ workDir c =
        if String.eqb (List.last (r :: rs) "") "shaders"
        then Posix.absolute (r :: rs)
        else (Posix.absolute (r :: rs) ++ "/shaders")%string.
Proof.
  intros Hpath Htmp Hts Hname Hplain Hroot Hrs. eexists _, _.
  split; [by apply new_Config_ok|]. cbn [workDir tmpdir].
  rewrite Hpath, Htmp. cbn [basename join posix].
  rewrite basename_absolute by done. split.
  - rewrite join_absolute; [|done|by repeat constructor].
    unfold Posix.absolute. rewrite concat_app.
    change (String.concat "/" [name; "shaders"])
      with (name ++ "/" ++ "shaders")%string.
    by rewrite !append_cons, !append_empty_l.
  - destruct (String.eqb (List.last (r :: rs) "") "shaders"); [done|].
    rewrite join_absolute; [|done|by repeat constructor].
    by rewrite absolute_snoc.
Qed.

(** C2: on POSIX paths, for every project root written as an absolute
    path of plain segments (the root directory, with no segment, included),
    the constructor returns a Config whose working directory is the project
    root itself when the root's last segment is [shaders], and the path
    with the segments of the root followed by the segment [shaders]
    otherwise, which for a root with at least one segment is the root
    followed by [/shaders]. *)
Theorem workDir_by_final_segment h w (name : string) (segs : list string) :
  path h = posix →
  workspace_name h = Some name →
  Forall (λ x, Posix.plain x = true) segs →
  workspace_rootPath h = Some (Posix.absolute segs) →
  ∃ c w', new_Config regLinuxOutput h w = (Ok c, w')
    ∧ (List.last segs "" = "shaders" → workDir c = Posix.absolute segs)
    ∧ (List.last segs "" ≠ "shaders" →
       workDir c = Posix.absolute (segs ++ ["shaders"]))
    ∧ (List.last segs "" ≠ "shaders" → segs ≠ [] →
       workDir c = (Posix.absolute segs ++ "/shaders")%string).
Proof.
  intros Hpath Hname Hsegs Hroot. eexists _, _.
  split; [by apply new_Config_ok|]. cbn [workDir].
  rewrite Hpath. cbn [basename join posix].
  rewrite basename_absolute_any by done.
  split; [|split].
  - intros Hlast. by rewrite Hlast.
  - intros Hlast.
    destruct (String.eqb_spec (List.last segs "") "shaders"); [done|].
    apply join_absolute_any; [done | by repeat constructor].
  - intros Hlast Hne.
    destruct (String.eqb_spec (List.last segs "") "shaders"); [done|].
    rewrite join_absolute_any; [|done|by repeat constructor].
    destruct segs as [|seg segs]; [done|]. by rewrite absolute_snoc.
Qed.

(** C3, as the code has it: the pattern stored at construction is
    [regLinuxOutput] whatever the platform; the platform flag is computed
    from [os.platform()] and stored beside it. *)
Theorem outputMatch_is_regLinuxOutput h w (name root : string) :
  workspace_name h = Some name →
  workspace_rootPath h = Some root →
  ∃ c w', new_Config regLinuxOutput h w = (Ok c, w')
    ∧ outputMatch c = regLinuxOutput
    ∧ isWin c = String.eqb (os_platform h) "win32".
Proof.
  intros Hname Hroot. eexists _, _. split; [by apply new_Config_ok|]. done.
Qed.

(** An affecting change: the line is printed, then the constructor runs,
    then its result is copied. *)
Lemma onChange_affecting h this e w :
  affectsConfiguration e "mcglsl" = true →
  onChange regLinuxOutput h this e w =
    match new_Config regLinuxOutput h
            {| console := console w ++ [[Some "[MC-GLSL] config changed"]];
               heap := heap w |} with
    | (Ok fresh, w1) => Object_assign this fresh w1
    | (Throw err, w1) => (Throw err, w1)
    end.
Proof. intros Haffects. unfold onChange. by rewrite Haffects. Qed.

(** C4, as the code has it: on a change that affects [mcglsl], [onChange]
    prints its line, constructs a complete new Config and copies it onto
    the object it was called on.  When the constructor returns, the call
    returns with that object holding the new Config in every field, every
    other object as it was; when the constructor throws, the call throws
    and no object has changed. *)
Theorem onChange_overwrites_every_field h this e w (old : Config) :
  affectsConfiguration e "mcglsl" = true →
  heap w !! this = Some old →
  (∀ name root, workspace_name h = Some name → workspace_rootPath h = Some root →
     ∃ fresh w1,
       new_Config regLinuxOutput h
         {| console := console w ++ [[Some "[MC-GLSL] config changed"]];
            heap := heap w |} = (Ok fresh, w1)
       ∧ onChange regLinuxOutput h this e w =
           (Ok tt, {| console := console w1; heap := <[this := fresh]> (heap w) |}))
  ∧ (workspace_name h = None ∨ workspace_rootPath h = None →
     ∃ w1, onChange regLinuxOutput h this e w = (Throw not_a_string, w1)
           ∧ heap w1 = heap w).
Proof.
  intros Haffects Hold. rewrite onChange_affecting by done. split.
  - intros name root Hname Hroot. eexists _, _.
    split; [by apply new_Config_ok|].
    rewrite (new_Config_ok _ _ name root Hname Hroot).
    by rewrite (Object_assign_run _ _ old).
  - intros Hnone.
    destruct (new_Config_throws h
      {| console := console w ++ [[Some "[MC-GLSL] config changed"]];
         heap := heap w |} Hnone) as (w1 & -> & Hheap).
    by exists w1.
Qed.

(** C5: on a change that does not affect [mcglsl], [onChange] returns
    having changed nothing: no field of any Config, nothing printed. *)
Theorem onChange_outside_namespace h this e w :
  affectsConfiguration e "mcglsl" = false →
  onChange regLinuxOutput h this e w = (Ok tt, w).
Proof. intros Haffects. unfold onChange. by rewrite Haffects. Qed.

(** C6: on POSIX paths, with the OS temp root written as an absolute path
    of plain segments and a workspace name of one plain segment, the
    constructor returns a Config whose staging directory is the path with
    the segments of the temp root followed by the workspace name and by
    [shaders]: [<tmp>/<name>/shaders]. *)
Theorem tmpdir_under_temp_root h w (name root : string) (ts : list string) :
  path h = posix →
  os_tmpdir h = Posix.absolute ts →
  Forall (λ x, Posix.plain x = true) ts →
  workspace_name h = Some name →
  Posix.plain name = true →
  workspace_rootPath h = Some root →
  ∃ c w', new_Config regLinuxOutput h w = (Ok c, w')
    ∧ tmpdir c = Posix.absolute (ts ++ [name; "shaders"])
    ∧ (ts ≠ [] →
       tmpdir c = (os_tmpdir h ++ "/" ++ name ++ "/" ++ "shaders")%string).
Proof.
  intros Hpath Htmp Hts Hname Hplain Hroot. eexists _, _.
  split; [by apply new_Config_ok|]. cbn [tmpdir].
  rewrite Hpath, Htmp. cbn [join posix].
  rewrite join_absolute_any; [|done|by repeat constructor].
  split; [done|]. intros Hne.
  destruct ts as [|t ts]; [done|]. by rewrite absolute_append.
Qed.

End ConfigFacts.

Section ConfigRuns.
Import Client.

Lemma workDir_by_final_segment_witness :
  path Samples.host_linux = posix
  ∧ workspace_name Samples.host_linux = Some "pack"
  ∧ Forall (λ x, Posix.plain x = true) ["proj"]
  ∧ workspace_rootPath Samples.host_linux = Some (Posix.absolute ["proj"])
  ∧ ∃ c w',
      new_Config Samples.regLinuxOutput Samples.host_linux Samples.world0 = (Ok c, w')
      ∧ (List.last ["proj"] "" = "shaders" → workDir c = Posix.absolute ["proj"])
      ∧ (List.last ["proj"] "" ≠ "shaders" →
         workDir c = Posix.absolute (["proj"] ++ ["shaders"]))
      ∧ (List.last ["proj"] "" ≠ "shaders" → ["proj"] ≠ [] →
         workDir c = (Posix.absolute ["proj"] ++ "/shaders")%string).
Proof.
  assert (Hproj : Forall (λ x, Posix.plain x = true) ["proj"])
    by (constructor; [reflexivity | constructor]).
  split; [reflexivity|]. split; [reflexivity|]. split; [exact Hproj|].
  split; [reflexivity|].
  exact (workDir_by_final_segment Samples.regLinuxOutput Samples.host_linux
           Samples.world0 "pack" ["proj"] eq_refl eq_refl Hproj eq_refl).
Defined.

Lemma outputMatch_is_regLinuxOutput_witness :
  workspace_name Samples.host_win32 = Some "pack"
  ∧ workspace_rootPath Samples.host_win32 = Some "/proj"
  ∧ ∃ c w',
      new_Config Samples.regLinuxOutput Samples.host_win32 Samples.world0 = (Ok c, w')
      ∧ outputMatch c = Samples.regLinuxOutput
      ∧ isWin c = String.eqb (os_platform Samples.host_win32) "win32".
Proof.
  split; [reflexivity|]. split; [reflexivity|].
  exact (outputMatch_is_regLinuxOutput Samples.regLinuxOutput Samples.host_win32
           Samples.world0 "pack" "/proj" eq_refl eq_refl).
Defined.

(** C3, as stated, fails: two hosts that differ in nothing but the
    platform get Configs with different platform flags and one and the same
    pattern. *)
Lemma outputMatch_ignores_platform :
  ∃ cW cL,
    (new_Config Samples.regLinuxOutput Samples.host_win32 Samples.world0).1 = Ok cW
    ∧ (new_Config Samples.regLinuxOutput Samples.host_linux Samples.world0).1 = Ok cL
    ∧ isWin cW = true
    ∧ isWin cL = false
    ∧ outputMatch cW = outputMatch cL
    ∧ ¬ platform_specific cW cL.
Proof.
  eexists _, _. split; [reflexivity|]. split; [reflexivity|].
  split; [reflexivity|]. split; [reflexivity|]. split; [reflexivity|].
  intros Hspecific. by apply Hspecific.
Qed.

Lemma onChange_overwrites_every_field_witness :
  affectsConfiguration Samples.affects_mcglsl "mcglsl" = true
  ∧ heap Samples.world0 !! Samples.conf = Some Samples.generation0
  ∧ onChange Samples.regLinuxOutput Samples.host_later Samples.conf
      Samples.affects_mcglsl Samples.world0 =
      (Ok tt,
       {| console :=
            [[Some "[MC-GLSL] config changed"];
             [Some "[MC-GLSL] glslangValidatorPath set to";
              Some "/opt/glslang/bin/glslangValidator"];
             [Some "[MC-GLSL] temp directory root set to";
              Some "/var/tmp/other/shaders"]];
          heap := <[Samples.conf := Samples.generation1]> (heap Samples.world0) |}).
Proof.
  split; [reflexivity|]. split; [reflexivity|].
  destruct (onChange_overwrites_every_field Samples.regLinuxOutput
              Samples.host_later Samples.conf Samples.affects_mcglsl
              Samples.world0 Samples.generation0 eq_refl eq_refl) as [Hok _].
  destruct (Hok "other" "/home/me/other/shaders" eq_refl eq_refl)
    as (fresh & w1 & Hnew & Hrun).
  rewrite Hrun. vm_compute in Hnew. injection Hnew as <- <-. reflexivity.
Defined.

(** C4, as stated, fails: the Config object is not replaced.  The object a
    consumer holds by reference is the one [onChange] writes to; a consumer
    that read the staging directory before the change and reads the working
    directory after it has one field of each generation, and
    [Object.assign] itself passes through objects with fields of both. *)
Lemma onChange_mutates_the_shared_object :
  heap Samples.world0 !! Samples.conf = Some Samples.generation0
  ∧ heap (onChange Samples.regLinuxOutput Samples.host_later Samples.conf
            Samples.affects_mcglsl Samples.world0).2 !! Samples.conf
    = Some Samples.generation1
  ∧ ¬ immutable_per_generation Samples.regLinuxOutput Samples.host_later
        Samples.conf Samples.affects_mcglsl Samples.world0
  ∧ read Samples.conf tmpdir Samples.world0 = Some "/tmp/pack/shaders"
  ∧ read Samples.conf workDir
      (onChange Samples.regLinuxOutput Samples.host_later Samples.conf
         Samples.affects_mcglsl Samples.world0).2
    = Some "/home/me/other/shaders"
  ∧ tmpdir Samples.generation1 ≠ "/tmp/pack/shaders"
  ∧ workDir Samples.generation0 ≠ "/home/me/other/shaders"
  ∧ heap (assign_keys Samples.conf Samples.generation1
            [F_glslangPath; F_minecraftPath; F_isWin; F_tmpdir] Samples.world0).2
      !! Samples.conf
    = Some {| minecraftPath := None;
              glslangPath := Some "/opt/glslang/bin/glslangValidator";
              workDir := "/proj/shaders";
              tmpdir := "/var/tmp/other/shaders";
              isWin := false;
              outputMatch := Samples.regLinuxOutput |}.
Proof.
  split; [reflexivity|]. split; [reflexivity|]. split.
  { unfold immutable_per_generation. vm_compute. discriminate. }
  split; [reflexivity|]. split; [reflexivity|].
  split; [discriminate|]. split; [discriminate|]. reflexivity.
Qed.

Lemma onChange_outside_namespace_witness :
  affectsConfiguration Samples.affects_editor "mcglsl" = false
  ∧ onChange Samples.regLinuxOutput Samples.host_later Samples.conf
      Samples.affects_editor Samples.world0 = (Ok tt, Samples.world0).
Proof.
  split; [reflexivity|].
  exact (onChange_outside_namespace Samples.regLinuxOutput Samples.host_later
           Samples.conf Samples.affects_editor Samples.world0 eq_refl).
Defined.

Lemma tmpdir_under_temp_root_witness :
  path Samples.host_linux = posix
  ∧ os_tmpdir Samples.host_linux = Posix.absolute ["tmp"]
  ∧ Forall (λ x, Posix.plain x = true) ["tmp"]
  ∧ workspace_name Samples.host_linux = Some "pack"
  ∧ Posix.plain "pack" = true
  ∧ workspace_rootPath Samples.host_linux = Some "/proj"
  ∧ ∃ c w',
      new_Config Samples.regLinuxOutput Samples.host_linux Samples.world0 = (Ok c, w')
      ∧ tmpdir c = Posix.absolute (["tmp"] ++ ["pack"; "shaders"])
      ∧ (["tmp"] ≠ [] →
         tmpdir c = (os_tmpdir Samples.host_linux ++ "/" ++ "pack" ++ "/" ++ "shaders")%string).
Proof.
  assert (Htmp : Forall (λ x, Posix.plain x = true) ["tmp"])
    by (constructor; [reflexivity | constructor]).
  split; [reflexivity|]. split; [reflexivity|]. split; [exact Htmp|].
  split; [reflexivity|]. split; [reflexivity|]. split; [reflexivity|].
  exact (tmpdir_under_temp_root Samples.regLinuxOutput Samples.host_linux
           Samples.world0 "pack" "/proj" ["tmp"] eq_refl eq_refl Htmp
           eq_refl eq_refl eq_refl).
Defined.

(** The two scenarios of the specification, run on POSIX paths. *)
Example proj_scenario :
  (new_Config Samples.regLinuxOutput Samples.host_linux Samples.world0).1
  = Ok Samples.generation0.
Proof. reflexivity. Qed.

Example shaders_root_scenario :
  (new_Config Samples.regLinuxOutput Samples.host_later Samples.world0).1
  = Ok Samples.generation1.
Proof. reflexivity. Qed.

End ConfigRuns.

(** * More on server.ts: requests, the completion list, the call log *)

Section ServerBehaviour.
Import Lsp Server Behaviour.

Implicit Types (s : State) (ms : list Message) (item : CompletionItem).

(** For an integer id, whatever its sign and size, a resolve request is
    answered with a candidate exactly when the id lies between [1] and the
    length of the list; every other integer id is answered with
    [undefined], read from outside the array.  The answer is an ordinary
    return and the module state is as before. *)
Theorem resolve_integer_id_iff s item (i : Z) :
  data item = Js.DInt i →
  (∃ x, onCompletionResolve item s = (Returned x, s))
  ∧ ((∃ r, (onCompletionResolve item s).1 = Returned (Some r))
     ↔ (1 ≤ i ≤ Z.of_nat (length (completions s)))%Z)
  ∧ (¬ (1 ≤ i ≤ Z.of_nat (length (completions s)))%Z →
     (onCompletionResolve item s).1 = Returned None
     ∧ Js.in_bounds (completions s) (Js.Int (i - 1)) = false).
Proof.
  intros Hdata. split; [by eexists|].
  rewrite onCompletionResolve_run, Hdata. simpl. split; [split|].
  - intros [r Hr]. injection Hr as Hr.
    case_bool_decide; [done|]. apply lookup_lt_Some in Hr. lia.
  - intros Hi.
    destruct (index_in_range (completions s) i Hi) as (r & _ & Hr).
    exists r. simpl in Hr. by rewrite Hr.
  - intros Hi.
    assert (Hout : Js.in_bounds (completions s) (Js.Int (i - 1)) = false).
    { simpl. apply bool_decide_eq_false. lia. }
    split; [|done]. pose proof (index_out_of_range _ _ Hout) as Hidx.
    simpl in Hidx. by rewrite Hidx.
Qed.

Lemma resolve_integer_id_iff_witness :
  data (Samples.request (Js.DInt (-4))) = Js.DInt (-4)
  ∧ (∃ x, onCompletionResolve (Samples.request (Js.DInt (-4))) Samples.server0
          = (Returned x, Samples.server0))
  ∧ ((∃ r, (onCompletionResolve (Samples.request (Js.DInt (-4)))
              Samples.server0).1 = Returned (Some r))
     ↔ (1 ≤ -4 ≤ Z.of_nat (length (completions Samples.server0)))%Z)
  ∧ (¬ (1 ≤ -4 ≤ Z.of_nat (length (completions Samples.server0)))%Z →
     (onCompletionResolve (Samples.request (Js.DInt (-4))) Samples.server0).1
       = Returned None
     ∧ Js.in_bounds (completions Samples.server0) (Js.Int (-4 - 1)) = false).
Proof.
  split; [reflexivity|].
  exact (resolve_integer_id_iff Samples.server0
           (Samples.request (Js.DInt (-4))) (-4) eq_refl).
Defined.

(** The list a completion request gets is the whole completion array,
    whatever the position asked about and whatever the server handled
    before. *)
Theorem completion_list_is_static s ms (p p' : TextDocumentPositionParams) :
  (onCompletion p (run ms s)).1 = completions s
  ∧ (onCompletion p (run ms s)).1 = (onCompletion p' s).1.
Proof.
  destruct (run_frame ms s) as (Hc & _ & _).
  unfold onCompletion, get, mbind, M_bind, mret, M_ret. simpl. by rewrite Hc.
Qed.

(** Listing, then resolving: the candidate at position [k] of the list a
    completion request returned is what a later resolve request with id
    [k + 1] returns, whatever the server handled in between. *)
Theorem completion_then_resolve s ms (p : TextDocumentPositionParams) item
    (k : nat) (r : loc) :
  (onCompletion p s).1 !! k = Some r →
  data item = Js.DInt (Z.of_nat k + 1) →
  (onCompletionResolve item (run ms s)).1 = Returned (Some r).
Proof.
  intros Hk Hdata. destruct (run_frame ms s) as (Hc & _ & _).
  rewrite onCompletionResolve_run, Hdata, Hc. simpl.
  rewrite bool_decide_false by lia.
  replace (Z.to_nat (Z.of_nat k + 1 - 1)) with k by lia.
  unfold onCompletion, get, mbind, M_bind, mret, M_ret in Hk. simpl in Hk.
  by rewrite Hk.
Qed.

Lemma completion_then_resolve_witness :
  (onCompletion {| pos_uri := "file:///proj/shaders/final.fsh";
                   pos_line := 0; pos_character := 3 |} Samples.server0).1
    !! 1%nat = Some 11%positive
  ∧ data (Samples.request (Js.DInt 2)) = Js.DInt (Z.of_nat 1 + 1)
  ∧ (onCompletionResolve (Samples.request (Js.DInt 2))
       (run [SyncLayer [Samples.final_fsh] (Some {| document := Samples.final_fsh |})]
          Samples.server0)).1 = Returned (Some 11%positive).
Proof.
  split; [reflexivity|]. split; [reflexivity|].
  exact (completion_then_resolve Samples.server0 _
           {| pos_uri := "file:///proj/shaders/final.fsh";
              pos_line := 0; pos_character := 3 |}
           (Samples.request (Js.DInt 2)) 1 11%positive eq_refl eq_refl).
Defined.

(** Requests change nothing: after any sequence of initialize, completion
    and resolve requests the module state is what it was, so none of them
    reaches the linter or the Config. *)
Theorem requests_are_read_only s ms :
  forallb is_request ms = true → run ms s = s.
Proof.
  revert s. induction ms as [|m ms IH]; intros s Hms; [done|].
  simpl in Hms. apply andb_prop in Hms as [Hm Hms].
  unfold run in *. simpl.
  destruct m as [params|docs fired|change|p|item]; try discriminate;
    by apply IH.
Qed.

Lemma requests_are_read_only_witness :
  forallb is_request
    [Initialize {| processId := 1; rootUri := "file:///proj" |};
     CompletionResolve (Samples.request (Js.DInt 7));
     Completion {| pos_uri := "file:///a"; pos_line := 2; pos_character := 0 |}]
  = true
  ∧ run [Initialize {| processId := 1; rootUri := "file:///proj" |};
         CompletionResolve (Samples.request (Js.DInt 7));
         Completion {| pos_uri := "file:///a"; pos_line := 2; pos_character := 0 |}]
      Samples.server0 = Samples.server0.
Proof.
  split; [reflexivity|].
  exact (requests_are_read_only Samples.server0
           [Initialize {| processId := 1; rootUri := "file:///proj" |};
            CompletionResolve (Samples.request (Js.DInt 7));
            Completion {| pos_uri := "file:///a"; pos_line := 2; pos_character := 0 |}]
           eq_refl).
Defined.





(** A configuration change re-lints the documents that are open at that
    moment: once the document manager has brought its set to [docs], the
    change calls [preprocess] on exactly [docs], in order, whatever was
    open before; a document that was closed is not linted again. *)
Theorem config_change_uses_current_documents s ms
    (docs : list TextDocument) (fired : option TextDocumentChangeEvent)
    (change : DidChangeConfigurationParams) :
  let before := run (ms ++ [SyncLayer docs fired]) s in
  calls (run (ms ++ [SyncLayer docs fired; DidChangeConfiguration change]) s)
  = calls before ++ Config_onChange (settings change) :: map preprocess_call docs.
Proof.
  simpl. unfold run. rewrite !foldl_app. simpl.
  set (s1 := foldl (λ s m, (dispatch m s).2) s ms).
  unfold mbind at 1, M_bind at 1.
  rewrite onDidChangeConfiguration_run. simpl.
  by destruct fired.
Qed.

End ServerBehaviour.

(** * More on the Config class: failure, stability, repeated changes *)

Section ConfigBehaviour.
Import Client Behaviour.

Variable regLinuxOutput : RegExp.

Implicit Types (h : Host) (w : World) (e : ConfigurationChangeEvent)
  (this : loc).

(** The constructor returns a Config exactly when the workspace has both a
    name and a root path; in every case, returning or throwing, it leaves
    every existing Config object as it was. *)
Theorem new_Config_returns_iff h w :
  ((∃ c w', new_Config regLinuxOutput h w = (Ok c, w'))
   ↔ is_Some (workspace_name h) ∧ is_Some (workspace_rootPath h))
  ∧ heap (new_Config regLinuxOutput h w).2 = heap w.
Proof.
  destruct (workspace_name h) as [name|] eqn:Hname;
    [destruct (workspace_rootPath h) as [root|] eqn:Hroot|].
  - rewrite (new_Config_ok _ h w name root Hname Hroot). split; [|done].
    split; [by eauto|]. intros _. by eexists _, _.
  - destruct (new_Config_throws regLinuxOutput h w) as (w1 & Hthrow & Hheap);
      [by right|].
    rewrite Hthrow. split; [|done]. split.
    + by intros (c & w' & ?).
    + by intros [_ [? ?]].
  - destruct (new_Config_throws regLinuxOutput h w) as (w1 & Hthrow & Hheap);
      [by left|].
    rewrite Hthrow. split; [|done]. split.
    + by intros (c & w' & ?).
    + by intros [[? ?] _].
Qed.

(** Without a workspace name the constructor throws a [TypeError] from the
    [path.join] inside its second [console.log]: the first line has been
    printed, the second has not. *)
Theorem new_Config_without_name h w :
  workspace_name h = None →
  new_Config regLinuxOutput h w =
    (Throw not_a_string,
     {| console := console w ++
          [[Some "[MC-GLSL] glslangValidatorPath set to";
            configuration h "mcglsl" "glslangValidatorPath"]];
        heap := heap w |}).
Proof.
  intros Hname. unfold new_Config, path_join, console_log, throw,
    mbind, C_bind, mret, C_ret. simpl. by rewrite Hname.
Qed.

(** With a workspace name and no root path the constructor prints both
    lines and throws a [TypeError] from [path.basename]. *)
Theorem new_Config_without_root h w (name : string) :
  workspace_name h = Some name →
  workspace_rootPath h = None →
  new_Config regLinuxOutput h w =
    (Throw not_a_string,
     {| console := console w ++
          [[Some "[MC-GLSL] glslangValidatorPath set to";
            configuration h "mcglsl" "glslangValidatorPath"];
           [Some "[MC-GLSL] temp directory root set to";
            Some (join (path h) [os_tmpdir h; name; "shaders"])]];
        heap := heap w |}).
Proof.
  intros Hname Hroot. unfold new_Config, path_join, path_basename,
    console_log, throw, mbind, C_bind, mret, C_ret. simpl.
  rewrite Hname, Hroot. simpl. by rewrite <- app_assoc.
Qed.

(** The working directory is a fixed point of its own derivation: where
    [path] gives [shaders] as the base name of the joined path, the base
    name of the working directory is [shaders], and a Config constructed
    with that working directory as project root has the same working
    directory. *)
Theorem workDir_is_stable h h' w w' w1 (name name' root : string) (c : Config) :
  workspace_name h = Some name →
  workspace_rootPath h = Some root →
  basename (path h) (join (path h) [root; "shaders"]) = "shaders" →
  new_Config regLinuxOutput h w = (Ok c, w1) →
  path h' = path h →
  workspace_name h' = Some name' →
  workspace_rootPath h' = Some (workDir c) →
  basename (path h) (workDir c) = "shaders"
  ∧ ∃ c' w2, new_Config regLinuxOutput h' w' = (Ok c', w2)
            ∧ workDir c' = workDir c.
Proof.
  intros Hname Hroot Hlib Hnew Hpath Hname' Hroot'.
  rewrite (new_Config_ok _ h w name root Hname Hroot) in Hnew.
  injection Hnew as <- _.
  assert (Hbase : basename (path h) (workDir
            {| minecraftPath := configuration h "mcglsl" "minecraftPath";
               glslangPath := configuration h "mcglsl" "glslangValidatorPath";
               workDir := if String.eqb (basename (path h) root) "shaders"
                          then root else join (path h) [root; "shaders"];
               tmpdir := join (path h) [os_tmpdir h; name; "shaders"];
               isWin := String.eqb (os_platform h) "win32";
               outputMatch := regLinuxOutput |}) = "shaders").
  { cbn [workDir].
    by destruct (String.eqb_spec (basename (path h) root) "shaders"). }
  split; [done|]. eexists _, _.
  split; [by apply (new_Config_ok _ h' w' name')|].
  cbn [workDir] in *. rewrite Hpath, Hbase. done.
Qed.

(** [Object.assign] writes to its target only. *)
Lemma assign_keys_other (target other : loc) (src : Config)
    (keys : list Field) w :
  other ≠ target →
  heap (assign_keys target src keys w).2 !! other = heap w !! other.
Proof.
  intros Hne. revert w. induction keys as [|f keys IH]; intros w; [done|].
  simpl. unfold mbind, C_bind, write. simpl. rewrite IH. simpl.
  by rewrite lookup_alter_ne.
Qed.

(** What an affecting change does to the store: the object it is called
    on holds the constructed Config when the workspace has a name and a
    root path, and the store is as before when it has not. *)
Lemma onChange_affecting_heap h this e w (old : Config) :
  affectsConfiguration e "mcglsl" = true →
  heap w !! this = Some old →
  heap (onChange regLinuxOutput h this e w).2 =
    match workspace_name h, workspace_rootPath h with
    | Some name, Some root =>
        <[this := constructed regLinuxOutput h name root]> (heap w)
    | _, _ => heap w
    end.
Proof.
  intros Haffects Hold. rewrite onChange_affecting by done.
  set (logged := {| console := console w ++ [[Some "[MC-GLSL] config changed"]];
                    heap := heap w |}).
  destruct (workspace_name h) as [name|] eqn:Hname;
    [destruct (workspace_rootPath h) as [root|] eqn:Hroot|].
  - rewrite (new_Config_ok _ h logged name root Hname Hroot).
    by rewrite (Object_assign_run _ _ old).
  - destruct (new_Config_throws regLinuxOutput h logged) as (w1 & -> & Hheap);
      [by right|done].
  - destruct (new_Config_throws regLinuxOutput h logged) as (w1 & -> & Hheap);
      [by left|done].
Qed.

(** One change either leaves the object with the value it had or leaves it
    with the whole Config constructed from the host of that change. *)
Lemma onChange_keeps_or_constructs h this e w (old : Config) :
  heap w !! this = Some old →
  heap (onChange regLinuxOutput h this e w).2 !! this = Some old
  ∨ ∃ name root,
      affectsConfiguration e "mcglsl" = true
      ∧ workspace_name h = Some name
      ∧ workspace_rootPath h = Some root
      ∧ heap (onChange regLinuxOutput h this e w).2 !! this
        = Some (constructed regLinuxOutput h name root).
Proof.
  intros Hold.
  destruct (affectsConfiguration e "mcglsl") eqn:Haffects;
    [|left; unfold onChange; by rewrite Haffects].
  rewrite (onChange_affecting_heap h this e w old Haffects Hold).
  destruct (workspace_name h) as [name|]; [|by left].
  destruct (workspace_rootPath h) as [root|]; [|by left].
  right. exists name, root. by rewrite lookup_insert_eq.
Qed.

(** [onChange] touches no object but the one it is called on, whether the
    change affects [mcglsl] or not and whether the constructor returns or
    throws. *)
Theorem onChange_leaves_other_objects h this (other : loc) e w :
  other ≠ this →
  heap (onChange regLinuxOutput h this e w).2 !! other = heap w !! other.
Proof.
  intros Hne.
  destruct (affectsConfiguration e "mcglsl") eqn:Haffects;
    [|unfold onChange; by rewrite Haffects].
  rewrite onChange_affecting by done.
  set (logged := {| console := console w ++ [[Some "[MC-GLSL] config changed"]];
                    heap := heap w |}).
  assert (Hheap : heap (new_Config regLinuxOutput h logged).2 = heap w).
  { destruct (workspace_name h) as [name|] eqn:Hname;
      [destruct (workspace_rootPath h) as [root|] eqn:Hroot|].
    - by rewrite (new_Config_ok _ h logged name root Hname Hroot).
    - destruct (new_Config_throws regLinuxOutput h logged)
        as (w1 & -> & Hheap); [by right|done].
    - destruct (new_Config_throws regLinuxOutput h logged)
        as (w1 & -> & Hheap); [by left|done]. }
  destruct (new_Config regLinuxOutput h logged) as [[fresh|err] w1];
    simpl in Hheap.
  - unfold Object_assign. rewrite assign_keys_other by done. by rewrite Hheap.
  - simpl. by rewrite Hheap.
Qed.

(** Handling the same affecting change twice with the host unchanged
    leaves the objects as the first handling left them. *)
Theorem onChange_twice h this e w (old : Config) :
  affectsConfiguration e "mcglsl" = true →
  heap w !! this = Some old →
  heap (onChange regLinuxOutput h this e
          (onChange regLinuxOutput h this e w).2).2
  = heap (onChange regLinuxOutput h this e w).2.
Proof.
  intros Haffects Hold.
  pose proof (onChange_affecting_heap h this e w old Haffects Hold) as H1.
  destruct (workspace_name h) as [name|] eqn:Hname;
    [destruct (workspace_rootPath h) as [root|] eqn:Hroot|].
  - assert (Hnew : heap (onChange regLinuxOutput h this e w).2 !! this
                   = Some (constructed regLinuxOutput h name root)).
    { rewrite H1. apply lookup_insert_eq. }
    rewrite (onChange_affecting_heap h this e _ _ Haffects Hnew).
    rewrite Hname, Hroot, H1. by rewrite insert_insert_eq.
  - assert (Hsame : heap (onChange regLinuxOutput h this e w).2 !! this
                    = Some old) by (by rewrite H1).
    rewrite (onChange_affecting_heap h this e _ _ Haffects Hsame).
    by rewrite Hname, Hroot.
  - assert (Hsame : heap (onChange regLinuxOutput h this e w).2 !! this
                    = Some old) by (by rewrite H1).
    rewrite (onChange_affecting_heap h this e _ _ Haffects Hsame).
    by rewrite Hname.
Qed.

Lemma handle_changes_app this
    (first second : list (Host * ConfigurationChangeEvent)) w :
  handle_changes regLinuxOutput this (first ++ second) w
  = handle_changes regLinuxOutput this second
      (handle_changes regLinuxOutput this first w).
Proof.
  revert w. induction first as [|[h e] first IH]; intros w; [done|].
  simpl. by rewrite IH.
Qed.

(** The object stays allocated through any sequence of changes. *)
Lemma handle_changes_allocated this
    (events : list (Host * ConfigurationChangeEvent)) w (old : Config) :
  heap w !! this = Some old →
  is_Some (heap (handle_changes regLinuxOutput this events w) !! this).
Proof.
  revert w old. induction events as [|[h e] events IH]; intros w old Hold.
  - by exists old.
  - simpl. destruct (onChange_keeps_or_constructs h this e w old Hold)
      as [Hsame|(name & root & _ & _ & _ & Hnew)]; eauto.
Qed.

(** The last change wins: after any sequence of configuration changes, an
    affecting change handled with a workspace open leaves the object
    holding the Config constructed from the host as it is then; nothing of
    the earlier generations remains in it. *)
Theorem last_change_wins this
    (events : list (Host * ConfigurationChangeEvent)) h e w
    (old : Config) (name root : string) :
  heap w !! this = Some old →
  affectsConfiguration e "mcglsl" = true →
  workspace_name h = Some name →
  workspace_rootPath h = Some root →
  heap (handle_changes regLinuxOutput this (events ++ [(h, e)]) w) !! this
  = Some (constructed regLinuxOutput h name root).
Proof.
  intros Hold Haffects Hname Hroot. rewrite handle_changes_app. simpl.
  destruct (handle_changes_allocated this events w old Hold) as [mid Hmid].
  rewrite (onChange_affecting_heap h this e _ mid Haffects Hmid).
  rewrite Hname, Hroot. apply lookup_insert_eq.
Qed.

(** Never a mix of generations: after any sequence of configuration
    changes the object is, whole, either the Config it started with or the
    Config constructed from the host of one of the affecting changes that
    were handled with a workspace open. *)
Theorem always_a_whole_generation this
    (events : list (Host * ConfigurationChangeEvent)) w (c0 : Config) :
  heap w !! this = Some c0 →
  heap (handle_changes regLinuxOutput this events w) !! this = Some c0
  ∨ ∃ h e name root,
      (h, e) ∈ events
      ∧ affectsConfiguration e "mcglsl" = true
      ∧ workspace_name h = Some name
      ∧ workspace_rootPath h = Some root
      ∧ heap (handle_changes regLinuxOutput this events w) !! this
        = Some (constructed regLinuxOutput h name root).
Proof.
  revert w c0. induction events as [|[h e] events IH]; intros w c0 Hc0;
    [by left|].
  simpl.
  destruct (onChange_keeps_or_constructs h this e w c0 Hc0)
    as [Hsame|(name & root & Haffects & Hname & Hroot & Hnew)].
  - destruct (IH _ _ Hsame)
      as [Hkept|(h' & e' & name' & root' & Hin & Hrest)]; [by left|].
    right. exists h', e', name', root'. split; [by right|done].
  - destruct (IH _ _ Hnew)
      as [Hkept|(h' & e' & name' & root' & Hin & Hrest)].
    + right. exists h, e, name, root. split; [by left|done].
    + right. exists h', e', name', root'. split; [by right|done].
Qed.

End ConfigBehaviour.

Section ConfigBehaviourRuns.
Import Client Behaviour.

Lemma new_Config_without_name_witness :
  workspace_name host_no_folder = None
  ∧ new_Config Samples.regLinuxOutput host_no_folder Samples.world0 =
      (Throw not_a_string,
       {| console := [[Some "[MC-GLSL] glslangValidatorPath set to";
                       Some "glslangValidator"]];
          heap := heap Samples.world0 |}).
Proof.
  split; [reflexivity|].
  exact (new_Config_without_name Samples.regLinuxOutput host_no_folder
           Samples.world0 eq_refl).
Defined.

Lemma new_Config_without_root_witness :
  workspace_name host_no_root = Some "pack"
  ∧ workspace_rootPath host_no_root = None
  ∧ new_Config Samples.regLinuxOutput host_no_root Samples.world0 =
      (Throw not_a_string,
       {| console := [[Some "[MC-GLSL] glslangValidatorPath set to";
                       Some "glslangValidator"];
                      [Some "[MC-GLSL] temp directory root set to";
                       Some "/tmp/pack/shaders"]];
          heap := heap Samples.world0 |}).
Proof.
  split; [reflexivity|]. split; [reflexivity|].
  exact (new_Config_without_root Samples.regLinuxOutput host_no_root
           Samples.world0 "pack" eq_refl eq_refl).
Defined.

Lemma workDir_is_stable_witness :
  workspace_name Samples.host_linux = Some "pack"
  ∧ workspace_rootPath Samples.host_linux = Some "/proj"
  ∧ basename (path Samples.host_linux)
      (join (path Samples.host_linux) ["/proj"; "shaders"]) = "shaders"
  ∧ path host_reopened = path Samples.host_linux
  ∧ workspace_name host_reopened = Some "shaders"
  ∧ workspace_rootPath host_reopened = Some (workDir Samples.generation0)
  ∧ basename (path Samples.host_linux) (workDir Samples.generation0) = "shaders"
  ∧ ∃ c' w2,
      new_Config Samples.regLinuxOutput host_reopened Samples.world0 = (Ok c', w2)
      ∧ workDir c' = workDir Samples.generation0.
Proof.
  split; [reflexivity|]. split; [reflexivity|]. split; [reflexivity|].
  split; [reflexivity|]. split; [reflexivity|]. split; [reflexivity|].
  exact (workDir_is_stable Samples.regLinuxOutput Samples.host_linux
           host_reopened Samples.world0 Samples.world0
           (new_Config Samples.regLinuxOutput Samples.host_linux Samples.world0).2
           "pack" "shaders" "/proj" Samples.generation0
           eq_refl eq_refl eq_refl eq_refl eq_refl eq_refl eq_refl).
Defined.

Lemma onChange_leaves_other_objects_witness :
  other ≠ Samples.conf
  ∧ heap (onChange Samples.regLinuxOutput Samples.host_later Samples.conf
            Samples.affects_mcglsl world_two).2 !! other
    = heap world_two !! other.
Proof.
  assert (Hne : other ≠ Samples.conf) by discriminate.
  split; [exact Hne|].
  exact (onChange_leaves_other_objects Samples.regLinuxOutput Samples.host_later
           Samples.conf other Samples.affects_mcglsl world_two Hne).
Defined.

Lemma onChange_twice_witness :
  affectsConfiguration Samples.affects_mcglsl "mcglsl" = true
  ∧ heap Samples.world0 !! Samples.conf = Some Samples.generation0
  ∧ heap (onChange Samples.regLinuxOutput Samples.host_later Samples.conf
            Samples.affects_mcglsl
            (onChange Samples.regLinuxOutput Samples.host_later Samples.conf
               Samples.affects_mcglsl Samples.world0).2).2
    = heap (onChange Samples.regLinuxOutput Samples.host_later Samples.conf
              Samples.affects_mcglsl Samples.world0).2.
Proof.
  split; [reflexivity|]. split; [reflexivity|].
  exact (onChange_twice Samples.regLinuxOutput Samples.host_later Samples.conf
           Samples.affects_mcglsl Samples.world0 Samples.generation0
           eq_refl eq_refl).
Defined.

Lemma always_a_whole_generation_witness :
  heap Samples.world0 !! Samples.conf = Some Samples.generation0
  ∧ (heap (handle_changes Samples.regLinuxOutput Samples.conf
             [(Samples.host_later, Samples.affects_mcglsl);
              (host_no_folder, Samples.affects_mcglsl);
              (Samples.host_linux, Samples.affects_editor)]
             Samples.world0) !! Samples.conf = Some Samples.generation0
     ∨ ∃ h e name root,
         (h, e) ∈ [(Samples.host_later, Samples.affects_mcglsl);
                   (host_no_folder, Samples.affects_mcglsl);
                   (Samples.host_linux, Samples.affects_editor)]
         ∧ affectsConfiguration e "mcglsl" = true
         ∧ workspace_name h = Some name
         ∧ workspace_rootPath h = Some root
         ∧ heap (handle_changes Samples.regLinuxOutput Samples.conf
                   [(Samples.host_later, Samples.affects_mcglsl);
                    (host_no_folder, Samples.affects_mcglsl);
                    (Samples.host_linux, Samples.affects_editor)]
                   Samples.world0) !! Samples.conf
           = Some (constructed Samples.regLinuxOutput h name root)).
Proof.
  split; [reflexivity|].
  exact (always_a_whole_generation Samples.regLinuxOutput Samples.conf
           [(Samples.host_later, Samples.affects_mcglsl);
            (host_no_folder, Samples.affects_mcglsl);
            (Samples.host_linux, Samples.affects_editor)]
           Samples.world0 Samples.generation0 eq_refl).
Defined.

Lemma last_change_wins_witness :
  heap Samples.world0 !! Samples.conf = Some Samples.generation0
  ∧ affectsConfiguration Samples.affects_mcglsl "mcglsl" = true
  ∧ workspace_name Samples.host_later = Some "other"
  ∧ workspace_rootPath Samples.host_later = Some "/home/me/other/shaders"
  ∧ heap (handle_changes Samples.regLinuxOutput Samples.conf
            ([(host_reopened, Samples.affects_mcglsl);
              (host_no_folder, Samples.affects_mcglsl)]
             ++ [(Samples.host_later, Samples.affects_mcglsl)])
            Samples.world0) !! Samples.conf
    = Some (constructed Samples.regLinuxOutput Samples.host_later
              "other" "/home/me/other/shaders").
Proof.
  split; [reflexivity|]. split; [reflexivity|]. split; [reflexivity|].
  split; [reflexivity|].
  exact (last_change_wins Samples.regLinuxOutput Samples.conf
           [(host_reopened, Samples.affects_mcglsl);
            (host_no_folder, Samples.affects_mcglsl)]
           Samples.host_later Samples.affects_mcglsl Samples.world0
           Samples.generation0 "other" "/home/me/other/shaders"
           eq_refl eq_refl eq_refl eq_refl).
Defined.

End ConfigBehaviourRuns.

(** * POSIX paths: the base name of a path joined with [shaders] *)

Section PosixShaders.
Import Posix.

Implicit Types (s t seg : string) (segs : list string).

Lemma split_elements_no_slash s :
  Forall (λ x, has_slash x = false) (split s).
Proof.
  induction s as [|c s IH]; [by repeat constructor|]. simpl.
  destruct (Ascii.eqb c "/") eqn:Hc; [by constructor|].
  destruct (split s) as [|seg rest].
  - constructor; [|done]. simpl. by rewrite Hc.
  - apply Forall_cons_1 in IH as [Hseg Hrest].
    constructor; [|done]. simpl. by rewrite Hc.
Qed.

(** Splitting distributes over a slash. *)
Lemma split_append s t : split (s ++ String "/" t) = split s ++ split t.
Proof.
  induction s as [|c s IH]; [done|]. rewrite append_cons. simpl.
  destruct (Ascii.eqb c "/"); [by rewrite IH|]. rewrite IH.
  pose proof (split_not_nil s) as Hnil.
  by destruct (split s).
Qed.

Lemma split_concat_no_slash seg segs :
  Forall (λ x, has_slash x = false) (seg :: segs) →
  split (String.concat "/" (seg :: segs)) = seg :: segs.
Proof.
  revert seg. induction segs as [|seg' segs IH]; intros seg Hall;
    apply Forall_cons_1 in Hall as [Hseg Hrest].
  - by apply split_no_slash.
  - change (String.concat "/" (seg :: seg' :: segs))
      with (seg ++ String "/" (String.concat "/" (seg' :: segs)))%string.
    rewrite split_append_slash by done. by rewrite IH.
Qed.

Lemma push_segment_no_slash (above : bool) (stack : list string) seg :
  Forall (λ x, has_slash x = false) stack →
  has_slash seg = false →
  Forall (λ x, has_slash x = false) (push_segment above stack seg).
Proof.
  intros Hstack Hseg. unfold push_segment.
  destruct (String.eqb seg "" || String.eqb seg "."); [done|].
  destruct (String.eqb seg ".."); [|by constructor].
  destruct stack as [|top below].
  - destruct above; by repeat constructor.
  - apply Forall_cons_1 in Hstack as [Htop Hbelow].
    destruct (String.eqb top ".."); [|done].
    destruct above; by repeat constructor.
Qed.

Lemma fold_push_no_slash (above : bool) segs (stack : list string) :
  Forall (λ x, has_slash x = false) segs →
  Forall (λ x, has_slash x = false) stack →
  Forall (λ x, has_slash x = false)
    (fold_left (push_segment above) segs stack).
Proof.
  revert stack. induction segs as [|seg segs IH]; intros stack Hsegs Hstack;
    [done|].
  apply Forall_cons_1 in Hsegs as [Hseg Hrest]. simpl.
  apply IH; [done|]. by apply push_segment_no_slash.
Qed.

Lemma append_not_empty_r s t : t ≠ "" → (s ++ t)%string ≠ "".
Proof. intros Ht. destruct s; [done|]. by rewrite append_cons. Qed.

Lemma concat_snoc_not_empty segs t :
  t ≠ "" → String.concat "/" (segs ++ [t]) ≠ "".
Proof.
  intros Ht. destruct segs as [|seg segs]; [done|].
  rewrite concat_app. by apply append_not_empty_r.
Qed.

Lemma starts_with_slash_split s :
  starts_with_slash s = true → ∃ s', s = String "/" s'.
Proof.
  destruct s as [|c s]; [done|]. simpl. intros Hc%Ascii.eqb_eq.
  subst c. by exists s.
Qed.

(** The base name of a string that is some kept segments and then
    [shaders], with or without a leading slash. *)
Lemma basename_kept_shaders (absolute : bool) (kept : list string) :
  Forall (λ x, has_slash x = false) kept →
  basename ((if absolute then "/" else "")
              ++ String.concat "/" (kept ++ ["shaders"])) = "shaders".
Proof.
  intros Hkept. unfold basename.
  assert (Hsplit : split (String.concat "/" (kept ++ ["shaders"]))
                   = kept ++ ["shaders"]).
  { destruct kept as [|seg kept]; [done|].
    change ((seg :: kept) ++ ["shaders"]) with (seg :: (kept ++ ["shaders"])).
    apply split_concat_no_slash.
    change (seg :: (kept ++ ["shaders"])) with ((seg :: kept) ++ ["shaders"]).
    apply Forall_app. split; [done|]. by repeat constructor. }
  destruct absolute.
  - rewrite append_cons, append_empty_l.
    change (String "/" (String.concat "/" (kept ++ ["shaders"])))
      with ("" ++ String "/" (String.concat "/" (kept ++ ["shaders"])))%string.
    rewrite split_append_slash by done. rewrite Hsplit.
    change (List.filter nonempty ("" :: kept ++ ["shaders"]))
      with (List.filter nonempty (kept ++ ["shaders"])).
    rewrite List.filter_app. apply List.last_last.
  - rewrite append_empty_l, Hsplit, List.filter_app. apply List.last_last.
Qed.

(** Whatever the root, the path [path.join(root, 'shaders')] has the base
    name [shaders]. *)
Lemma basename_join_shaders (root : string) :
  basename (join [root; "shaders"]) = "shaders".
Proof.
  unfold join. cbn [List.filter].
  change (nonempty "shaders") with true. cbn iota.
  destruct (nonempty root) eqn:Hroot; [|reflexivity].
  change (String.concat "/" [root; "shaders"])
    with (root ++ String "/" "shaders")%string.
  assert (Hne : root ≠ "").
  { unfold nonempty in Hroot. by apply negb_true_iff, String.eqb_neq in Hroot. }
  unfold normalize.
  assert (Hp : (root ++ String "/" "shaders")%string ≠ "")
    by (by apply append_not_empty_r).
  apply String.eqb_neq in Hp. rewrite Hp.
  rewrite split_append.
  change (split "shaders") with ["shaders"].
  rewrite fold_left_app. cbn [fold_left].
  set (absolute := starts_with_slash (root ++ String "/" "shaders")).
  set (kept := fold_left (push_segment (negb absolute)) (split root) []).
  change (push_segment (negb absolute) kept "shaders") with ("shaders" :: kept).
  cbn [rev].
  assert (Hkept : Forall (λ x, has_slash x = false) (rev kept)).
  { apply Forall_rev. apply fold_push_no_slash; [|done].
    apply split_elements_no_slash. }
  assert (Hbody : String.concat "/" (rev kept ++ ["shaders"]) ≠ "")
    by (by apply concat_snoc_not_empty).
  apply String.eqb_neq in Hbody. rewrite Hbody.
  rewrite ends_with_slash_append by done.
  change (ends_with_slash (String "/" "shaders")) with false. cbn iota.
  rewrite append_empty_r.
  by apply basename_kept_shaders.
Qed.

(** With POSIX paths the working directory is stable for every root: its
    base name is [shaders], so constructing again from it changes
    nothing. *)
Lemma workDir_base_name_posix (regLinuxOutput : Client.RegExp) (h : Client.Host)
    (w : Client.World) (name root : string) :
  Client.path h = Client.posix →
  Client.workspace_name h = Some name →
  Client.workspace_rootPath h = Some root →
  ∃ c w', Client.new_Config regLinuxOutput h w = (Client.Ok c, w')
          ∧ basename (Client.workDir c) = "shaders".
Proof.
  intros Hpath Hname Hroot. eexists _, _.
  split; [by apply new_Config_ok|]. cbn [Client.workDir]. rewrite Hpath.
  cbn [Client.basename Client.join Client.posix].
  destruct (String.eqb_spec (basename root) "shaders") as [Heq|_]; [done|].
  apply basename_join_shaders.
Qed.

End PosixShaders.

Section PosixRuns.
Import Client.

Lemma workDir_base_name_posix_witness :
  path Samples.host_later = posix
  ∧ workspace_name Samples.host_later = Some "other"
  ∧ workspace_rootPath Samples.host_later = Some "/home/me/other/shaders"
  ∧ ∃ c w',
      new_Config Samples.regLinuxOutput Samples.host_later Samples.world0 = (Ok c, w')
      ∧ Posix.basename (workDir c) = "shaders".
Proof.
  split; [reflexivity|]. split; [reflexivity|]. split; [reflexivity|].
  exact (workDir_base_name_posix Samples.regLinuxOutput Samples.host_later
           Samples.world0 "other" "/home/me/other/shaders"
           eq_refl eq_refl eq_refl).
Defined.

Lemma posix_layout_witness :
  path Samples.host_linux = posix
  ∧ os_tmpdir Samples.host_linux = Posix.absolute ["tmp"]
  ∧ Forall (λ x, Posix.plain x = true) ["tmp"]
  ∧ workspace_name Samples.host_linux = Some "pack"
  ∧ Posix.plain "pack" = true
  ∧ workspace_rootPath Samples.host_linux = Some (Posix.absolute ["proj"])
  ∧ Forall (λ x, Posix.plain x = true) ["proj"]
  ∧ ∃ c w',
      new_Config Samples.regLinuxOutput Samples.host_linux Samples.world0 = (Ok c, w')
      ∧ tmpdir c = (os_tmpdir Samples.host_linux ++ "/" ++ "pack" ++ "/shaders")%string
      ∧ workDir c =
          if String.eqb (List.last ["proj"] "") "shaders"
          then Posix.absolute ["proj"]
          else (Posix.absolute ["proj"] ++ "/shaders")%string.
Proof.
  assert (Htmp : Forall (λ x, Posix.plain x = true) ["tmp"])
    by (constructor; [reflexivity | constructor]).
  assert (Hproj : Forall (λ x, Posix.plain x = true) ["proj"])
    by (constructor; [reflexivity | constructor]).
  split; [reflexivity|]. split; [reflexivity|]. split; [exact Htmp|].
  split; [reflexivity|]. split; [reflexivity|]. split; [reflexivity|].
  split; [exact Hproj|].
  exact (posix_layout Samples.regLinuxOutput Samples.host_linux Samples.world0
           "pack" "tmp" "proj" [] [] eq_refl eq_refl Htmp eq_refl eq_refl
           eq_refl Hproj).
Defined.

End PosixRuns.
